(** * docLearn: the clause-extraction pipeline of [main.py]

    A shallow embedding of [process_chunk] and [process_document] and the
    properties the specification states about them.

    Conventions of the embedding.
    - A Python [str] is a [string]; one [ascii] stands for one character
      (a code point below 256), so that slicing, comparison and escaping are
      character-wise as in Python.
    - A decoded JSON object is a [record]: its fields in insertion order,
      keys pairwise distinct as in a Python [dict], every value a string
      (the Clause and ErrorRecord shapes of the data model; a field may be
      absent).  Responses that decode to anything else than a list of such
      objects are outside the embedding, and with them the [TypeError] of
      [all_clauses.extend] at line 100 on a response that is not a list
      and the [TypeError] of [sorted] at line 111 on clause numbers of
      different JSON types: the statements below speak of runs whose
      responses decode to lists of objects with string values.
    - The generative model, [json.loads], [extract_text] and [chunk_text]
      are code the file imports; they are parameters of the development.
    - Everything the run does to the outside is recorded, in order, in a
      log of events: truncations of the output file, appended lines, model
      invocations and the sleeps of the retry decorator.  The content of
      the output file is computed from the log.
    - File-system failures are not modelled. *)

From Stdlib Require Import List String Ascii Bool Arith ZArith Lia.
From Stdlib Require Import Sorted Permutation DecimalString.
Import ListNotations.
Open Scope list_scope.
Open Scope string_scope.

(** ** Characters and strings *)

Definition dq : string := String "034"%char EmptyString.
Definition nl : string := String "010"%char EmptyString.
Definition quoted (s : string) : string := dq ++ s ++ dq.

(** [str.isspace] and the [\s] class of [re] on the characters below 256. *)
Definition isspace (c : ascii) : bool :=
  let n := nat_of_ascii c in
  (((9 <=? n) && (n <=? 13)) || ((28 <=? n) && (n <=? 32))
   || (n =? 133) || (n =? 160))%nat.

Definition is_newline (c : ascii) : bool := Ascii.eqb c "010"%char.

(** ** Records (decoded JSON objects) *)

Definition record : Type := list (string * string).

Fixpoint get (key : string) (d : record) : option string :=
  match d with
  | [] => None
  | (k, v) :: rest => if String.eqb k key then Some v else get key rest
  end.

(** [key in d] *)
Definition has_key (key : string) (d : record) : bool :=
  match get key d with Some _ => true | None => false end.

Definition option_string_eqb (a b : option string) : bool :=
  match a, b with
  | Some x, Some y => String.eqb x y
  | None, None => true
  | _, _ => false
  end.

(** [d1 == d2] on dicts: same keys, same values, whatever the order. *)
Definition dict_eqb (d1 d2 : record) : bool :=
  (List.length d1 =? List.length d2)%nat
  && forallb (fun kv => option_string_eqb (get (fst kv) d2) (Some (snd kv))) d1.

(** [c in l] on a list of dicts. *)
Definition record_in (c : record) (l : list record) : bool :=
  existsb (dict_eqb c) l.

(** ["error" not in c] *)
Definition no_error (c : record) : bool := negb (has_key "error" c).

(** [c.get("clause_risk") == "very high"] *)
Definition is_very_high (c : record) : bool :=
  option_string_eqb (get "clause_risk" c) (Some "very high").

(** ** [json.dumps] on records *)

Definition hex_digit (n : nat) : ascii :=
  nth n ["0"; "1"; "2"; "3"; "4"; "5"; "6"; "7"; "8"; "9";
         "a"; "b"; "c"; "d"; "e"; "f"]%char "0"%char.

Definition u_escape (n : nat) : string :=
  "\u00" ++ String (hex_digit (n / 16)) (String (hex_digit (n mod 16)) "").

Definition escape_char (ensure_ascii : bool) (c : ascii) : string :=
  let n := nat_of_ascii c in
  if (n =? 34)%nat then "\" ++ dq
  else if (n =? 92)%nat then "\\"
  else if (n =? 10)%nat then "\n"
  else if (n =? 13)%nat then "\r"
  else if (n =? 9)%nat then "\t"
  else if (n =? 8)%nat then "\b"
  else if (n =? 12)%nat then "\f"
  else if (n <? 32)%nat then u_escape n
  else if ensure_ascii && (126 <? n)%nat then u_escape n
  else String c "".

Fixpoint escape (ensure_ascii : bool) (s : string) : string :=
  match s with
  | EmptyString => EmptyString
  | String c rest => escape_char ensure_ascii c ++ escape ensure_ascii rest
  end.

Definition dump_field (ensure_ascii : bool) (kv : string * string) : string :=
  quoted (escape ensure_ascii (fst kv)) ++ ": "
  ++ quoted (escape ensure_ascii (snd kv)).

Definition json_dumps (ensure_ascii : bool) (d : record) : string :=
  "{" ++ String.concat ", " (map (dump_field ensure_ascii) d) ++ "}".

(** ** Cleaning the raw response:
    [re.sub(r'```json\n|```|\n\s*\n', '', full_response).strip()] *)

(** At a newline: the number of following characters the alternative
    [\n\s*\n] consumes, [\s*] being greedy (up to the last newline of the
    whitespace run), or [None] when the run holds no newline. *)
Fixpoint blank_run (s : string) : option nat :=
  match s with
  | EmptyString => None
  | String c rest =>
      if isspace c then
        match blank_run rest with
        | Some k => Some (S k)
        | None => if is_newline c then Some 1 else None
        end
      else None
  end.

(** Left-to-right scan; [skip] characters of a match remain to be dropped. *)
Fixpoint re_sub_scan (skip : nat) (s : string) : string :=
  match s with
  | EmptyString => EmptyString
  | String c rest =>
      match skip with
      | S k => re_sub_scan k rest
      | O =>
          if String.prefix ("```json" ++ nl) s then re_sub_scan 7 rest
          else if String.prefix "```" s then re_sub_scan 2 rest
          else if is_newline c then
            match blank_run rest with
            | Some k => re_sub_scan k rest
            | None => String c (re_sub_scan 0 rest)
            end
          else String c (re_sub_scan 0 rest)
      end
  end.

Fixpoint lstrip (s : string) : string :=
  match s with
  | EmptyString => EmptyString
  | String c rest => if isspace c then lstrip rest else s
  end.

Fixpoint rstrip (s : string) : string :=
  match s with
  | EmptyString => EmptyString
  | String c rest =>
      match rstrip rest with
      | EmptyString => if isspace c then EmptyString else String c EmptyString
      | r => String c r
      end
  end.

Definition strip (s : string) : string := rstrip (lstrip s).

Definition clean_response (full_response : string) : string :=
  strip (re_sub_scan 0 full_response).

(** ** The prompt (lines 27-44) *)

Definition prompt_head (role jurisdiction : string) : string :=
  "As a " ++ role ++ " in " ++ jurisdiction
  ++ ", extract concise numbered clauses from the legal text. Club short clauses under the same topic (e.g., liability, penalties, obligations) into a single clause with combined text. "
  ++ "Assess their risk (low, medium, high, very high). Very high risk includes clauses with severe financial, legal, or operational impact (e.g., unlimited liability, strict penalties). "
  ++ "Return a JSON list of objects with: 'clause_number' (string, use the first number if clubbing), 'clause_text' (string, concise and combined for same-topic clauses), ".

Definition example_object (negotiation : string) : string :=
  "[{" ++ quoted "clause_number" ++ ": " ++ quoted "1" ++ ", "
  ++ quoted "clause_text" ++ ": " ++ quoted "Combined liability clauses..." ++ ", "
  ++ quoted "clause_risk" ++ ": " ++ quoted "very high" ++ ", "
  ++ quoted "negotiation" ++ ": " ++ quoted negotiation ++ "}]".

Definition build_prompt (role jurisdiction chunk : string)
    (is_final_pass : bool) (total_clauses : Z) : string :=
  if is_final_pass && (50 <? total_clauses)%Z then
    "As a " ++ role ++ " in " ++ jurisdiction
    ++ ", extract concise numbered clauses from the legal text. Club short clauses under the same topic (e.g., liability, penalties, obligations) into a single clause with combined text. "
    ++ "Assess their risk (low, medium, high, very high). Very high risk includes clauses with severe financial, legal, or operational impact (e.g., unlimited liability, strict penalties). "
    ++ "Return a JSON list of objects with: 'clause_number' (string, use the first number if clubbing), 'clause_text' (string, concise and combined for same-topic clauses), "
    ++ "'clause_risk' (low, medium, high, very high), 'negotiation' ('NIL' for low/medium/high risk, concise negotiation suggestion for very high risk). Ensure valid JSON output. "
    ++ "Example: " ++ example_object "Limit liability..." ++ ". "
    ++ "Text: " ++ chunk
  else
    "As a " ++ role ++ " in " ++ jurisdiction
    ++ ", extract concise numbered clauses from the legal text. Club short clauses under the same topic (e.g., liability, penalties, obligations) into a single clause with combined text. "
    ++ "Assess their risk (low, medium, high, very high). Very high risk includes clauses with severe financial, legal, or operational impact (e.g., unlimited liability, strict penalties). "
    ++ "Return a JSON list of objects with: 'clause_number' (string, use the first number if clubbing), 'clause_text' (string, concise and combined for same-topic clauses), "
    ++ "'clause_risk' (low, medium, high, very high), 'negotiation' ('NIL' for all risks). Ensure valid JSON output. "
    ++ "Example: " ++ example_object "NIL" ++ ". "
    ++ "Text: " ++ chunk.

(** The one sentence in which the two variants differ. *)
Definition negotiation_rule (suggest : bool) : string :=
  if suggest
  then "'negotiation' ('NIL' for low/medium/high risk, concise negotiation suggestion for very high risk)"
  else "'negotiation' ('NIL' for all risks)".

Definition example_negotiation (suggest : bool) : string :=
  if suggest then "Limit liability..." else "NIL".

(** ** Exceptions *)

(** [NonException] stands for the classes that derive from
    [BaseException] only ([KeyboardInterrupt], [asyncio.CancelledError],
    ...), which [except Exception] lets through. *)
Inductive exn_class : Type :=
  | ResourceExhausted
  | ServiceUnavailable
  | OtherException
  | KeyError
  | RetryError
  | NonException.

Record exn : Type := Exn { exn_class_of : exn_class; exn_str : string }.

(** [isinstance(e, Exception)] *)
Definition is_Exception (e : exn) : bool :=
  match exn_class_of e with
  | NonException => false
  | _ => true
  end.

(** [retry_if_exception_type((ResourceExhausted, ServiceUnavailable))] *)
Definition retry_if_exception_type (e : exn) : bool :=
  match exn_class_of e with
  | ResourceExhausted | ServiceUnavailable => true
  | _ => false
  end.

(** ** The outside world: a log of events *)

Inductive event : Type :=
  | EvTruncate                                      (* open(output_file, "w") *)
  | EvAppend (ensure_ascii : bool) (r : record)     (* one json.dumps line *)
  | EvCall (prompt : string)                        (* one model invocation *)
  | EvSleep (seconds : nat).                        (* a wait of the decorator *)

Definition world : Type := list event.

(** The records whose lines the output file holds, oldest first. *)
Definition file_step (f : list (bool * record)) (e : event) : list (bool * record) :=
  match e with
  | EvTruncate => []
  | EvAppend a r => (f ++ [(a, r)])%list
  | _ => f
  end.

Definition file_from (f : list (bool * record)) (w : world) : list (bool * record) :=
  fold_left file_step w f.

Definition file_of (w : world) : list (bool * record) := file_from [] w.

Definition file_records (w : world) : list record := map snd (file_of w).

(** The text of the output file. *)
Definition file_text (w : world) : string :=
  String.concat "" (map (fun l => json_dumps (fst l) (snd l) ++ nl) (file_of w)).

(** The prompts sent to the model, oldest first. *)
Fixpoint prompts_of (w : world) : list string :=
  match w with
  | [] => []
  | EvCall p :: rest => p :: prompts_of rest
  | _ :: rest => prompts_of rest
  end.

Fixpoint sleeps_of (w : world) : list nat :=
  match w with
  | [] => []
  | EvSleep n :: rest => n :: sleeps_of rest
  | _ :: rest => sleeps_of rest
  end.

Definition ncalls (w : world) : nat := List.length (prompts_of w).

Fixpoint truncations (w : world) : nat :=
  match w with
  | [] => 0
  | EvTruncate :: rest => S (truncations rest)
  | _ :: rest => truncations rest
  end.

(** ** Computations: state (the log) and exceptions *)

Inductive result (A : Type) : Type :=
  | Ok (a : A)
  | Raise (e : exn).
Arguments Ok {A} a.
Arguments Raise {A} e.

Definition M (A : Type) : Type := world -> result A * world.

Definition ret {A} (a : A) : M A := fun w => (Ok a, w).

Definition raise {A} (e : exn) : M A := fun w => (Raise e, w).

Definition bind {A B} (m : M A) (k : A -> M B) : M B :=
  fun w =>
    match m w with
    | (Ok a, w') => k a w'
    | (Raise e, w') => (Raise e, w')
    end.

Declare Scope io_scope.
Delimit Scope io_scope with io.
Notation "x <- m ;; k" := (bind m (fun x => k))
  (at level 100, m at next level, right associativity) : io_scope.
Notation "m ;; k" := (bind m (fun _ => k))
  (at level 100, right associativity) : io_scope.
Open Scope io_scope.

Definition emit (e : event) : M unit := fun w => (Ok tt, (w ++ [e])%list).

(** [with open(output_file, "w") as f: f.write("")] *)
Definition truncate_file : M unit := emit EvTruncate.

(** [f.write(json.dumps(r, ensure_ascii=...) + "\n")] in append mode *)
Definition append_line (ensure_ascii : bool) (r : record) : M unit :=
  emit (EvAppend ensure_ascii r).

Fixpoint append_lines (ensure_ascii : bool) (rs : list record) : M unit :=
  match rs with
  | [] => ret tt
  | r :: rest => append_line ensure_ascii r ;; append_lines ensure_ascii rest
  end.

(** [try: body except Exception as e: handler e] *)
Definition try_except_Exception {A} (body : M A) (handler : exn -> M A) : M A :=
  fun w =>
    match body w with
    | (Raise e, w') => if is_Exception e then handler e w' else (Raise e, w')
    | ok => ok
    end.

(** ** The [tenacity] decorator of [process_chunk] (lines 21-25) *)

(** [wait_exponential(multiplier, min, max)] after attempt [attempt_number]:
    [multiplier * 2 ** (attempt_number - 1)], clamped to [min .. max]. *)
Definition wait_exponential (multiplier min max attempt_number : nat) : nat :=
  Nat.max min (Nat.min (multiplier * 2 ^ (attempt_number - 1)) max).

(** [retry(stop=stop_after_attempt(n), wait=..., retry=...)] around [body]:
    [remaining] is the number of attempts still allowed after the one
    numbered [attempt_number].  When the last allowed attempt fails with a
    retried class, tenacity raises its own [RetryError]. *)
Fixpoint retrying {A} (remaining attempt_number : nat) (wait : nat -> nat)
    (retry_on : exn -> bool) (body : M A) : M A :=
  fun w =>
    match body w with
    | (Ok a, w') => (Ok a, w')
    | (Raise e, w') =>
        if retry_on e then
          match remaining with
          | O => (Raise (Exn RetryError "RetryError"), w')
          | S k =>
              retrying k (S attempt_number) wait retry_on body
                (w' ++ [EvSleep (wait attempt_number)])%list
          end
        else (Raise e, w')
    end.

Definition retry {A} (stop_after_attempt : nat) (wait : nat -> nat)
    (retry_on : exn -> bool) (body : M A) : M A :=
  retrying (stop_after_attempt - 1) 1 wait retry_on body.

(** ** [sorted(very_high_clauses, key=lambda x: x["clause_number"])] *)

(** The keys, computed for every element before any comparison; [None]
    is the [KeyError] of a record without a [clause_number]. *)
Fixpoint clause_number_keys (l : list record) : option (list (string * record)) :=
  match l with
  | [] => Some []
  | x :: rest =>
      match get "clause_number" x, clause_number_keys rest with
      | Some k, Some ks => Some ((k, x) :: ks)
      | _, _ => None
      end
  end.

(** [sorted] is a stable sort on the keys, compared as strings; a stable
    insertion sort computes the same list.  The keys being strings, any two
    compare: the only failure left is the missing key. *)
Fixpoint insert_keyed (x : string * record) (l : list (string * record))
    : list (string * record) :=
  match l with
  | [] => [x]
  | y :: rest =>
      if (fst x <=? fst y)%string then x :: y :: rest
      else y :: insert_keyed x rest
  end.

Definition sort_keyed (l : list (string * record)) : list (string * record) :=
  fold_right insert_keyed [] l.

Definition sorted_by_clause_number (l : list record) : option (list record) :=
  option_map (fun ks => map snd (sort_keyed ks)) (clause_number_keys l).

(** Line 112. *)
Definition other_clauses (all_clauses very_high_clauses : list record) : list record :=
  filter (fun c => negb (is_very_high c) || record_in c very_high_clauses) all_clauses.

(** The records the closing loop writes (lines 115-117 and 120-122). *)
Definition written (clauses : list record) : list record := filter no_error clauses.

Definition fallback_clause (chunk : string) : record :=
  [ ("clause_number", "unknown");
    ("clause_text", substring 0 1000 chunk);
    ("clause_risk", "medium");
    ("negotiation", "NIL") ].

Definition no_clauses_record : record := [("error", "No clauses found in chunk")].

Definition processing_error_record (e : exn) : record :=
  [("error", "Processing error: " ++ exn_str e)].

Definition no_text_record : record := [("error", "No text extracted from document")].

(** What one invocation of the model does: it fails with an exception
    (at the call or while the stream is read), or it streams parts. *)
Inductive response : Type :=
  | Fails (e : exn)
  | Streams (parts : list string).

Section Pipeline.

(** The generative model: its answer to the [n]-th invocation of the run
    (counted from 0) with the given prompt. *)
Variable model : nat -> string -> response.

(** [json.loads] on the responses of the embedding (lists of objects with
    string values); [None] is [json.JSONDecodeError]. *)
Variable json_loads : string -> option (list record).

(** [utils.extract_text] and [utils.chunk_text]. *)
Variable extract_text : string -> option string.
Variable chunk_text : string -> Z -> list string.

(** Lines 46-53: the call and the accumulation of the streamed parts. *)
Definition generate_content (prompt : string) : M string :=
  fun w =>
    let w' := (w ++ [EvCall prompt])%list in
    match model (ncalls w) prompt with
    | Fails e => (Raise e, w')
    | Streams parts => (Ok (String.concat "" parts), w')
    end.

(** The body of [process_chunk], lines 27-83. *)
Definition process_chunk_body (chunk role jurisdiction : string)
    (is_final_pass : bool) (total_clauses : Z) : M (list record) :=
  let prompt := build_prompt role jurisdiction chunk is_final_pass total_clauses in
  try_except_Exception
    (full_response <- generate_content prompt ;;
     let cleaned_response := clean_response full_response in
     match json_loads cleaned_response with
     | Some clauses =>
         match clauses with
         | [] => append_line true no_clauses_record
         | _ :: _ =>
             if is_final_pass then append_lines false clauses else ret tt
         end ;;
         ret clauses
     | None =>
         (if is_final_pass
          then append_line false (fallback_clause chunk)
          else ret tt) ;;
         ret [fallback_clause chunk]
     end)
    (fun e =>
       (if is_final_pass
        then append_line true (processing_error_record e)
        else ret tt) ;;
       ret []).

(** The decorated function. *)
Definition process_chunk (chunk role jurisdiction : string)
    (is_final_pass : bool) (total_clauses : Z) : M (list record) :=
  retry 3 (wait_exponential 1 1 10) retry_if_exception_type
    (process_chunk_body chunk role jurisdiction is_final_pass total_clauses).

(** Lines 98-100. *)
Fixpoint first_pass (chunks : list string) (role jurisdiction : string)
    (all_clauses : list record) : M (list record) :=
  match chunks with
  | [] => ret all_clauses
  | chunk :: rest =>
      clauses <- process_chunk chunk role jurisdiction false 0 ;;
      first_pass rest role jurisdiction (all_clauses ++ clauses)%list
  end.

(** Lines 107-109. *)
Fixpoint second_pass (chunks : list string) (role jurisdiction : string)
    (total_clauses : Z) (very_high_clauses : list record) : M (list record) :=
  match chunks with
  | [] => ret very_high_clauses
  | chunk :: rest =>
      clauses <- process_chunk chunk role jurisdiction true total_clauses ;;
      second_pass rest role jurisdiction total_clauses
        (very_high_clauses ++ filter is_very_high clauses)%list
  end.

(** Lines 85-123. *)
Definition process_document (file_path role jurisdiction : string)
    (chunk_size : Z) : M (list record) :=
  truncate_file ;;
  match extract_text file_path with
  | None | Some EmptyString =>
      append_line true no_text_record ;;
      ret []
  | Some text =>
      let chunks := chunk_text text chunk_size in
      all_clauses <- first_pass chunks role jurisdiction [] ;;
      let total_clauses := Z.of_nat (List.length (filter no_error all_clauses)) in
      if (50 <? total_clauses)%Z then
        truncate_file ;;
        candidates <- second_pass chunks role jurisdiction total_clauses [] ;;
        match sorted_by_clause_number candidates with
        | None => raise (Exn KeyError "'clause_number'")
        | Some in_order =>
            let very_high_clauses := firstn 50 in_order in
            append_lines false
              (written (other_clauses all_clauses very_high_clauses
                        ++ very_high_clauses)%list) ;;
            ret all_clauses
        end
      else
        append_lines false (written all_clauses) ;;
        ret all_clauses
  end.

End Pipeline.

(** ** Predicates used in the statements *)

(** [a] does not come after [b]: both carry a clause number and the
    number of [a] is at most the number of [b] as a string. *)
Definition number_le (a b : record) : Prop :=
  exists ka kb, get "clause_number" a = Some ka
             /\ get "clause_number" b = Some kb
             /\ (ka <=? kb)%string = true.

Definition key_le (x y : string * record) : Prop :=
  (fst x <=? fst y)%string = true.

(** What a pass may add to the log: model invocations whose prompt
    satisfies [P] and appended lines; outside the final pass the only line
    is the "No clauses found in chunk" record. *)
Definition pass_event (is_final_pass : bool) (P : string -> Prop) (e : event) : Prop :=
  match e with
  | EvCall p => P p
  | EvAppend a r => is_final_pass = true \/ (a = true /\ r = no_clauses_record)
  | EvTruncate | EvSleep _ => False
  end.

(** ** Concrete documents and models *)

Definition decimal (n : nat) : string := NilEmpty.string_of_uint (Nat.to_uint n).

Definition clause (number text risk negotiation : string) : record :=
  [ ("clause_number", number); ("clause_text", text);
    ("clause_risk", risk); ("negotiation", negotiation) ].

(** The JSON text of a list of records, as a model streams it. *)
Definition json_list (rs : list record) : string :=
  "[" ++ String.concat ", " (map (json_dumps false) rs) ++ "]".

(** A decoder for the texts of a table of record lists: it decodes
    [json_list rs] to [rs] for the lists of the table, as [json.loads]
    does, and rejects every other text. *)
Definition loads_table (table : list (list record)) (s : string)
    : option (list record) :=
  find (fun rs => String.eqb s (json_list rs)) table.

(** Nothing decodes: for runs whose responses are not JSON. *)
Definition loads_nothing : string -> option (list record) := loads_table [].

Definition very_high_clause (i : nat) (negotiation : string) : record :=
  clause (decimal i) ("Clause " ++ decimal i) "very high" negotiation.

(** *** A chunk whose response is not JSON *)

Definition long_chunk : string :=
  String.concat "" (repeat "Either party may terminate. " 50).

Definition prose_model (n : nat) (prompt : string) : response :=
  Streams ["I could not find "; "any clause in this text."].

(** *** A transient failure: quota exhausted on the first invocation, a
    valid answer on every later one *)

Definition payment_chunk : string := "1. Payment is due within 30 days.".

Definition payment_clause : record :=
  clause "1" "Payment is due within 30 days." "low" "NIL".

Definition flaky_model (n : nat) (prompt : string) : response :=
  match n with
  | O => Fails (Exn ResourceExhausted "429 Quota exceeded")
  | S _ => Streams [json_list [payment_clause]]
  end.

(** *** A document without text *)

Definition no_text (file_path : string) : option string := None.

(** *** A small document: two chunks, the first answered inside a
    markdown fence with two clauses, the second with an empty list *)

Definition small_chunks : list string :=
  [payment_chunk; "(this page is intentionally left blank)"].

Definition liability_clause : record :=
  clause "2" "The supplier's liability is unlimited." "very high" "NIL".

Definition small_model (n : nat) (prompt : string) : response :=
  match n with
  | O => Streams ["```json" ++ nl; json_list [payment_clause; liability_clause];
                  nl ++ "```"]
  | S _ => Streams ["[]"]
  end.

Definition small_table : list (list record) :=
  [ []; [payment_clause; liability_clause] ].

Definition some_text (file_path : string) : option string := Some "contract text".

Definition small_run : result (list record) * world :=
  process_document small_model (loads_table small_table) some_text
    (fun _ _ => small_chunks) "contract.pdf" "client" "India" 1000 [].

(** *** A long document: one chunk answered with 51 very-high clauses,
    numbered 1 to 51, and a second chunk on which the model fails *)

Definition long_chunks : list string :=
  ["Schedule of 51 obligations"; "Annex"].

Definition fifty_one (negotiation : string) : list record :=
  map (fun i => very_high_clause i negotiation) (seq 1 51).

(** The model gives the same answer in both passes. *)
Definition steady_model (n : nat) (prompt : string) : response :=
  match n with
  | 0 | 2 => Streams [json_list (fifty_one "NIL")]
  | _ => Fails (Exn OtherException "500 Internal error")
  end.

(** The model adds a suggestion in the second pass. *)
Definition advising_model (n : nat) (prompt : string) : response :=
  match n with
  | 0 => Streams [json_list (fifty_one "NIL")]
  | 2 => Streams [json_list (fifty_one "Cap the liability")]
  | _ => Fails (Exn OtherException "500 Internal error")
  end.

Definition long_table : list (list record) :=
  [ fifty_one "NIL"; fifty_one "Cap the liability" ].

Definition steady_run : result (list record) * world :=
  process_document steady_model (loads_table long_table) some_text
    (fun _ _ => long_chunks) "contract.pdf" "client" "India" 1000 [].

Definition advising_run : result (list record) * world :=
  process_document advising_model (loads_table long_table) some_text
    (fun _ _ => long_chunks) "contract.pdf" "client" "India" 1000 [].

(** *** The scenario of the specification: 60 chunks, each answered with
    one very-high clause, numbered 1 to 60; "NIL" in the first pass, a
    suggestion in the second *)

Definition sixty_chunks : list string :=
  map (fun i => "Text of clause " ++ decimal i) (seq 1 60).

Definition sixty_model (n : nat) (prompt : string) : response :=
  if (n <? 60)%nat
  then Streams [json_list [very_high_clause (S n) "NIL"]]
  else Streams [json_list [very_high_clause (n - 59) "Cap the liability"]].

Definition sixty_table : list (list record) :=
  (map (fun i => [very_high_clause i "NIL"]) (seq 1 60)
   ++ map (fun i => [very_high_clause i "Cap the liability"]) (seq 1 60))%list.

Definition sixty_run : result (list record) * world :=
  process_document sixty_model (loads_table sixty_table) some_text
    (fun _ _ => sixty_chunks) "contract.pdf" "client" "India" 1000 [].

(** The first 50 of "1" .. "60" in the order of strings. *)
Definition first_fifty_as_strings : list string :=
  ["1"; "10"; "11"; "12"; "13"; "14"; "15"; "16"; "17"; "18"; "19";
   "2"; "20"; "21"; "22"; "23"; "24"; "25"; "26"; "27"; "28"; "29";
   "3"; "30"; "31"; "32"; "33"; "34"; "35"; "36"; "37"; "38"; "39";
   "4"; "40"; "41"; "42"; "43"; "44"; "45"; "46"; "47"; "48"; "49";
   "5"; "50"; "51"; "52"; "53"; "54"].

(** The numbers of a list of records. *)
Definition numbers (rs : list record) : list (option string) :=
  map (get "clause_number") rs.

(** *** A model that answers with a record of its own carrying an error key *)




(** Adjacent records are in ascending order of their clause numbers. *)
Fixpoint ascendingb (l : list record) : bool :=
  match l with
  | a :: rest =>
      match rest with
      | b :: _ =>
          match get "clause_number" a, get "clause_number" b with
          | Some ka, Some kb => (ka <=? kb)%string
          | _, _ => false
          end && ascendingb rest
      | [] => true
      end
  | [] => true
  end.

(** The first 50 of "1" .. "51" in the order of strings, and the records
    of [fifty_one] with these numbers. *)
Definition fifty_of_fifty_one : list string :=
  (firstn 47 first_fifty_as_strings ++ ["6"; "7"; "8"])%list.

Definition selected_of (negotiation : string) : list record :=
  map (fun n => clause n ("Clause " ++ n) "very high" negotiation) fifty_of_fifty_one.

(** ** Notions used in further statements *)

(** Every character of [s] satisfies [P]. *)
Fixpoint all_chars (P : ascii -> bool) (s : string) : bool :=
  match s with
  | EmptyString => true
  | String c rest => P c && all_chars P rest
  end.

(** The number of occurrences of [c] in [s]. *)
Fixpoint count_char (c : ascii) (s : string) : nat :=
  match s with
  | EmptyString => 0
  | String x rest => (if Ascii.eqb x c then 1 else 0) + count_char c rest
  end.

Definition not_control (c : ascii) : bool := (32 <=? nat_of_ascii c)%nat.

Definition printable_ascii (c : ascii) : bool :=
  ((32 <=? nat_of_ascii c) && (nat_of_ascii c <=? 126))%nat.

(** Neither a newline nor a backtick. *)
Definition plain_char (c : ascii) : bool :=
  negb (is_newline c) && negb (Ascii.eqb c "`"%char).

Definition starts_with_space (s : string) : bool :=
  match s with
  | EmptyString => false
  | String c _ => isspace c
  end.

Fixpoint ends_with_space (s : string) : bool :=
  match s with
  | EmptyString => false
  | String c rest =>
      match rest with
      | EmptyString => isspace c
      | String _ _ => ends_with_space rest
      end
  end.

(** The lines a stretch of the log appends, in order. *)
Fixpoint appended (w : world) : list (bool * record) :=
  match w with
  | [] => []
  | EvAppend a r :: rest => (a, r) :: appended rest
  | _ :: rest => appended rest
  end.

(** [c["clause_number"] == k] *)
Definition number_is (k : string) (c : record) : bool :=
  option_string_eqb (get "clause_number" c) (Some k).

(** *** A cancelled invocation *)

Definition cancelled_model (n : nat) (prompt : string) : response :=
  Fails (Exn NonException "CancelledError").

(** *** The long document, with a second pass whose very-high record has
    no clause number *)

Definition unnumbered_record : record :=
  [ ("clause_text", "The supplier's liability is unlimited.");
    ("clause_risk", "very high"); ("negotiation", "Cap the liability") ].

Definition unnumbered_model (n : nat) (prompt : string) : response :=
  match n with
  | 0 => Streams [json_list (fifty_one "NIL")]
  | 2 => Streams [json_list [unnumbered_record]]
  | _ => Fails (Exn OtherException "500 Internal error")
  end.

Definition unnumbered_table : list (list record) :=
  [ fifty_one "NIL"; [unnumbered_record] ].

Definition unnumbered_run : result (list record) * world :=
  process_document unnumbered_model (loads_table unnumbered_table) some_text
    (fun _ _ => long_chunks) "contract.pdf" "client" "India" 1000 [].

(** *** Candidates with equal clause numbers *)

Definition tied_clauses : list record :=
  [ clause "2" "Second clause, first part" "very high" "NIL";
    clause "10" "Tenth clause" "very high" "NIL";
    clause "2" "Second clause, second part" "very high" "NIL" ].

(** * Properties *)

Open Scope list_scope.

(** ** The log *)

Lemma file_from_app (f : list (bool * record)) (a b : world) :
  file_from f (a ++ b) = file_from (file_from f a) b.
Proof. unfold file_from. apply fold_left_app. Qed.

Lemma prompts_of_app (a b : world) :
  prompts_of (a ++ b) = (prompts_of a ++ prompts_of b)%list.
Proof.
  induction a as [|e a IH]; simpl; [reflexivity|].
  destruct e; simpl; rewrite IH; reflexivity.
Qed.

Lemma sleeps_of_app (a b : world) :
  sleeps_of (a ++ b) = (sleeps_of a ++ sleeps_of b)%list.
Proof.
  induction a as [|e a IH]; simpl; [reflexivity|].
  destruct e; simpl; rewrite IH; reflexivity.
Qed.

Lemma truncations_app (a b : world) :
  truncations (a ++ b) = truncations a + truncations b.
Proof.
  induction a as [|e a IH]; simpl; [reflexivity|].
  destruct e; simpl; rewrite IH; reflexivity.
Qed.

Lemma file_from_appends (f : list (bool * record)) (a : bool) (rs : list record) :
  file_from f (map (EvAppend a) rs) = (f ++ map (pair a) rs)%list.
Proof.
  revert f. induction rs as [|r rs IH]; intro f; simpl.
  - now rewrite app_nil_r.
  - unfold file_from in *. simpl. rewrite IH, <- app_assoc. reflexivity.
Qed.

Lemma append_lines_log (a : bool) (rs : list record) (w : world) :
  append_lines a rs w = (Ok tt, (w ++ map (EvAppend a) rs)%list).
Proof.
  revert w. induction rs as [|r rs IH]; intro w; simpl.
  - unfold ret. now rewrite app_nil_r.
  - unfold bind, append_line, emit. rewrite IH, <- app_assoc. reflexivity.
Qed.

(** ** One chunk *)

Section ChunkFacts.

Variable model : nat -> string -> response.
Variable json_loads : string -> option (list record).

(** The five ways through the body of [process_chunk], with the events
    each one adds to the log. *)
Lemma process_chunk_body_cases chunk role jurisdiction is_final_pass total w :
  let prompt := build_prompt role jurisdiction chunk is_final_pass total in
  let w' := (w ++ [EvCall prompt])%list in
  process_chunk_body model json_loads chunk role jurisdiction is_final_pass total w =
  match model (ncalls w) prompt with
  | Fails e =>
      if is_Exception e
      then (Ok [], if is_final_pass
                   then (w' ++ [EvAppend true (processing_error_record e)])%list
                   else w')
      else (Raise e, w')
  | Streams parts =>
      match json_loads (clean_response (String.concat "" parts)) with
      | Some [] => (Ok [], (w' ++ [EvAppend true no_clauses_record])%list)
      | Some clauses =>
          (Ok clauses, if is_final_pass
                       then (w' ++ map (EvAppend false) clauses)%list
                       else w')
      | None =>
          (Ok [fallback_clause chunk],
           if is_final_pass
           then (w' ++ [EvAppend false (fallback_clause chunk)])%list
           else w')
      end
  end.
Proof.
  intros prompt w'.
  unfold process_chunk_body, try_except_Exception, bind, generate_content.
  fold prompt. fold w'.
  destruct (model (ncalls w) prompt) as [e|parts].
  - destruct (is_Exception e); [|reflexivity].
    destruct is_final_pass; reflexivity.
  - destruct (json_loads _) as [[|c cs]|].
    + reflexivity.
    + destruct is_final_pass; [|reflexivity].
      rewrite append_lines_log. reflexivity.
    + destruct is_final_pass; reflexivity.
Qed.

(** The body never raises an exception the decorator retries on: the
    [except Exception] clause has caught it before. *)
Lemma process_chunk_body_raises chunk role jurisdiction is_final_pass total w e w' :
  process_chunk_body model json_loads chunk role jurisdiction is_final_pass total w
    = (Raise e, w') ->
  is_Exception e = false.
Proof.
  rewrite process_chunk_body_cases.
  destruct (model _ _) as [e0|parts].
  - destruct (is_Exception e0) eqn:E; [discriminate|].
    intros H; inversion H; subst; exact E.
  - destruct (json_loads _) as [[|c cs]|]; discriminate.
Qed.

Lemma not_Exception_not_retried e :
  is_Exception e = false -> retry_if_exception_type e = false.
Proof.
  unfold is_Exception, retry_if_exception_type.
  destruct (exn_class_of e); intro H; try discriminate; reflexivity.
Qed.

(** So the decorator never gets to retry: the decorated function is its
    body. *)
Lemma process_chunk_is_body chunk role jurisdiction is_final_pass total w :
  process_chunk model json_loads chunk role jurisdiction is_final_pass total w
  = process_chunk_body model json_loads chunk role jurisdiction is_final_pass total w.
Proof.
  unfold process_chunk, retry. simpl.
  destruct (process_chunk_body _ _ _ _ _ _ _ w) as [[v|e] w'] eqn:E; [reflexivity|].
  apply process_chunk_body_raises in E.
  rewrite (not_Exception_not_retried _ E). reflexivity.
Qed.

End ChunkFacts.

(** ** The order on clause numbers and the sort *)

Lemma string_leb_refl (s : string) : (s <=? s)%string = true.
Proof. destruct (String.leb_total s s); assumption. Qed.

Lemma string_leb_trans (s1 s2 s3 : string) :
  (s1 <=? s2)%string = true -> (s2 <=? s3)%string = true ->
  (s1 <=? s3)%string = true.
Proof.
  unfold String.leb.
  revert s2 s3. induction s1 as [|a s1 IH]; intros [|b s2] [|c s3]; simpl;
    try (intros; reflexivity); try (intros; discriminate).
  unfold Ascii.compare.
  destruct (N.compare_spec (N_of_ascii a) (N_of_ascii b)) as [Eab|Lab|Gab];
    destruct (N.compare_spec (N_of_ascii b) (N_of_ascii c)) as [Ebc|Lbc|Gbc];
    destruct (N.compare_spec (N_of_ascii a) (N_of_ascii c)) as [Eac|Lac|Gac];
    intros H1 H2; try reflexivity; try discriminate; try lia.
  apply (IH s2 s3); assumption.
Qed.

Lemma insert_keyed_perm x l : Permutation (insert_keyed x l) (x :: l).
Proof.
  induction l as [|y l IH]; simpl; [apply Permutation_refl|].
  destruct (fst x <=? fst y)%string; [apply Permutation_refl|].
  eapply perm_trans; [apply perm_skip, IH|apply perm_swap].
Qed.

Lemma sort_keyed_perm l : Permutation (sort_keyed l) l.
Proof.
  induction l as [|x l IH]; simpl; [constructor|].
  eapply perm_trans; [apply insert_keyed_perm|]. now apply perm_skip.
Qed.

Lemma insert_keyed_sorted x l :
  StronglySorted key_le l -> StronglySorted key_le (insert_keyed x l).
Proof.
  induction l as [|y l IH]; intro S; simpl.
  - repeat constructor.
  - inversion S as [|? ? Sl Fy]; subst.
    destruct (fst x <=? fst y)%string eqn:E.
    + constructor; [exact S|]. constructor; [exact E|].
      eapply Forall_impl; [|exact Fy].
      intros z Hz. unfold key_le in *. eapply string_leb_trans; eassumption.
    + constructor; [now apply IH|].
      eapply Permutation_Forall; [apply Permutation_sym, insert_keyed_perm|].
      constructor; [|exact Fy].
      unfold key_le. destruct (String.leb_total (fst x) (fst y)) as [H|H];
        [congruence|exact H].
Qed.

Lemma sort_keyed_sorted l : StronglySorted key_le (sort_keyed l).
Proof.
  induction l as [|x l IH]; simpl; [constructor|now apply insert_keyed_sorted].
Qed.

Lemma clause_number_keys_spec l ks :
  clause_number_keys l = Some ks ->
  map snd ks = l /\ Forall (fun kr => get "clause_number" (snd kr) = Some (fst kr)) ks.
Proof.
  revert ks. induction l as [|x l IH]; intros ks; simpl.
  - intros H; inversion H; subst; split; constructor.
  - destruct (get "clause_number" x) as [k|] eqn:K; [|discriminate].
    destruct (clause_number_keys l) as [ks'|]; [|discriminate].
    intros H; inversion H; subst. destruct (IH ks' eq_refl) as [M F].
    split; simpl; [now rewrite M|constructor; [exact K|exact F]].
Qed.

Lemma keyed_sorted_records ks :
  Forall (fun kr => get "clause_number" (snd kr) = Some (fst kr)) ks ->
  StronglySorted key_le ks ->
  StronglySorted number_le (map snd ks).
Proof.
  induction ks as [|x ks IH]; intros F S; simpl; [constructor|].
  inversion F as [|? ? Fx Fks]; subst. inversion S as [|? ? Sks Lx]; subst.
  constructor; [now apply IH|].
  apply Forall_map. rewrite Forall_forall in *.
  intros y Hy. exists (fst x), (fst y). repeat split;
    [exact Fx|now apply Fks|now apply Lx].
Qed.

(** [sorted(..., key=...)]: a permutation of its argument, in ascending
    order of the clause numbers. *)
Lemma sorted_by_clause_number_spec l s :
  sorted_by_clause_number l = Some s ->
  Permutation s l /\ StronglySorted number_le s.
Proof.
  unfold sorted_by_clause_number.
  destruct (clause_number_keys l) as [ks|] eqn:K; [|discriminate].
  simpl. intros H; inversion H; subst; clear H.
  destruct (clause_number_keys_spec _ _ K) as [M F]. split.
  - rewrite <- M. apply Permutation_map, sort_keyed_perm.
  - apply keyed_sorted_records; [|apply sort_keyed_sorted].
    eapply Permutation_Forall; [apply Permutation_sym, sort_keyed_perm|exact F].
Qed.

Lemma sorted_by_clause_number_total l :
  Forall (fun c => has_key "clause_number" c = true) l ->
  exists s, sorted_by_clause_number l = Some s.
Proof.
  unfold sorted_by_clause_number. intro F.
  assert (exists ks, clause_number_keys l = Some ks) as [ks ->].
  { induction F as [|x l Hx F [ks IH]]; simpl; [now eexists|].
    unfold has_key in Hx. destruct (get "clause_number" x); [|discriminate].
    rewrite IH. now eexists. }
  simpl. now eexists.
Qed.

Lemma In_firstn {A} (x : A) n l : In x (firstn n l) -> In x l.
Proof.
  revert n. induction l as [|y l IH]; intros [|n]; simpl; try tauto.
  intros [H|H]; [now left|right; eauto].
Qed.

Lemma Forall_firstn {A} (P : A -> Prop) n l : Forall P l -> Forall P (firstn n l).
Proof.
  rewrite !Forall_forall. intros H x Hx. apply H. eapply In_firstn, Hx.
Qed.

Lemma StronglySorted_firstn {A} (R : A -> A -> Prop) n l :
  StronglySorted R l -> StronglySorted R (firstn n l).
Proof.
  revert n. induction l as [|x l IH]; intros [|n] S; simpl; try constructor.
  - inversion S; subst. now apply IH.
  - inversion S; subst. now apply Forall_firstn.
Qed.

(** Line 111: at most 50 records, all of them candidates, in ascending
    order of their clause numbers. *)
Lemma top50_spec candidates in_order :
  sorted_by_clause_number candidates = Some in_order ->
  List.length (firstn 50 in_order) <= 50
  /\ StronglySorted number_le (firstn 50 in_order)
  /\ (forall c, In c (firstn 50 in_order) -> In c candidates)
  /\ List.length (firstn 50 in_order) = Nat.min 50 (List.length candidates).
Proof.
  intro H. destruct (sorted_by_clause_number_spec _ _ H) as [P S].
  repeat split.
  - apply firstn_le_length.
  - now apply StronglySorted_firstn.
  - intros c Hc. eapply Permutation_in; [exact P|]. eapply In_firstn, Hc.
  - rewrite length_firstn. now rewrite (Permutation_length P).
Qed.

(** ** The events of a pass *)

Lemma pass_event_weaken fp (P Q : string -> Prop) evs :
  (forall p, P p -> Q p) ->
  Forall (pass_event fp P) evs -> Forall (pass_event fp Q) evs.
Proof.
  intros PQ. apply Forall_impl. intros [| | |] H; simpl in *; auto.
Qed.

Lemma pass_events_quiet fp P evs :
  Forall (pass_event fp P) evs ->
  truncations evs = 0 /\ sleeps_of evs = [] /\ Forall P (prompts_of evs).
Proof.
  induction 1 as [|e evs He _ [IT [IS IP]]]; simpl; [now repeat split|].
  destruct e; simpl in *; try contradiction; repeat split; auto.
Qed.

Lemma appends_no_prompts fp evs :
  Forall (pass_event fp (fun _ => False)) evs -> prompts_of evs = [].
Proof.
  intro F. apply pass_events_quiet in F. destruct F as (_ & _ & F).
  destruct (prompts_of evs); [reflexivity|]. inversion F; contradiction.
Qed.


Section PassFacts.

Variable model : nat -> string -> response.
Variable json_loads : string -> option (list record).

(** One call of [process_chunk]: exactly one invocation of the model,
    with the prompt of its arguments, then appended lines only. *)
Lemma process_chunk_events chunk role jurisdiction fp total w :
  exists evs,
    snd (process_chunk model json_loads chunk role jurisdiction fp total w)
    = w ++ EvCall (build_prompt role jurisdiction chunk fp total) :: evs
    /\ Forall (pass_event fp (fun _ => False)) evs.
Proof.
  rewrite process_chunk_is_body, process_chunk_body_cases.
  set (p := build_prompt role jurisdiction chunk fp total).
  destruct (model (ncalls w) p) as [e|parts].
  - destruct (is_Exception e); [destruct fp|]; simpl; rewrite <- ?app_assoc; simpl;
      eexists; (split; [reflexivity|]); repeat constructor.
  - destruct (json_loads _) as [[|c cs]|].
    + simpl. rewrite <- app_assoc. simpl. eexists. split; [reflexivity|].
      constructor; [simpl; right; split; reflexivity|constructor].
    + destruct fp; simpl; rewrite <- ?app_assoc; simpl;
        eexists; (split; [reflexivity|]); repeat constructor.
      apply Forall_map, Forall_forall. intros x _. simpl. now left.
    + destruct fp; simpl; rewrite <- ?app_assoc; simpl;
        eexists; (split; [reflexivity|]); repeat constructor.
Qed.

(** A step of either pass: the log grows by one call and its lines. *)
Ltac chunk_step chunk role jurisdiction fp total w :=
  destruct (process_chunk_events chunk role jurisdiction fp total w)
    as [evs1 [E1 F1]];
  unfold bind;
  destruct (process_chunk model json_loads chunk role jurisdiction fp total w)
    as [[clauses|e1] w1]; simpl in E1; subst w1.


Lemma second_pass_events chunks role jurisdiction total acc w res w' :
  second_pass model json_loads chunks role jurisdiction total acc w = (res, w') ->
  exists evs,
    w' = w ++ evs
    /\ Forall (pass_event true
                 (fun p => exists c, In c chunks
                                  /\ p = build_prompt role jurisdiction c true total)) evs
    /\ (forall v, res = Ok v ->
          prompts_of evs
          = map (fun c => build_prompt role jurisdiction c true total) chunks).
Proof.
  revert acc w. induction chunks as [|chunk rest IH]; intros acc w; simpl.
  - unfold ret. intros H; inversion H; subst. exists []. rewrite app_nil_r.
    repeat split; constructor.
  - chunk_step chunk role jurisdiction true total w.
    + intro H. apply IH in H. destruct H as [evs2 [-> [F2 P2]]].
      exists (EvCall (build_prompt role jurisdiction chunk true total) :: evs1 ++ evs2).
      split; [now rewrite <- app_assoc|]. split.
      * constructor; [simpl; exists chunk; split; [now left|reflexivity]|].
        apply Forall_app. split.
        -- eapply pass_event_weaken; [|exact F1]. contradiction.
        -- eapply pass_event_weaken; [|exact F2].
           intros p [c [Hc ->]]. exists c. split; [now right|reflexivity].
      * intros v Hv. simpl. rewrite prompts_of_app, (appends_no_prompts _ _ F1).
        simpl. now rewrite (P2 v Hv).
    + intros H; inversion H; subst.
      exists (EvCall (build_prompt role jurisdiction chunk true total) :: evs1).
      split; [reflexivity|]. split; [|discriminate].
      constructor; [simpl; exists chunk; split; [now left|reflexivity]|].
      eapply pass_event_weaken; [|exact F1]. contradiction.
Qed.

(** The candidates of the second pass are very-high records. *)
Lemma second_pass_very_high chunks role jurisdiction total acc w cands w' :
  second_pass model json_loads chunks role jurisdiction total acc w = (Ok cands, w') ->
  Forall (fun c => is_very_high c = true) acc ->
  Forall (fun c => is_very_high c = true) cands.
Proof.
  revert acc w. induction chunks as [|chunk rest IH]; intros acc w; simpl.
  - unfold ret. intros H; inversion H; subst. auto.
  - unfold bind.
    destruct (process_chunk model json_loads chunk role jurisdiction true total w)
      as [[clauses|e1] w1]; [|discriminate].
    intros H F. eapply IH; [exact H|]. apply Forall_app. split; [exact F|].
    apply Forall_forall. intros c Hc. apply filter_In in Hc. tauto.
Qed.

End PassFacts.

Lemma prompts_of_appends a rs : prompts_of (map (EvAppend a) rs) = [].
Proof. induction rs; simpl; auto. Qed.

Lemma truncations_appends a rs : truncations (map (EvAppend a) rs) = 0.
Proof. induction rs; simpl; auto. Qed.

Lemma written_no_error l : Forall (fun c => no_error c = true) (written l).
Proof.
  apply Forall_forall. intros c Hc. apply filter_In in Hc. tauto.
Qed.


(** ** The document *)

Section DocumentFacts.

Variable model : nat -> string -> response.
Variable json_loads : string -> option (list record).
Variable extract_text : string -> option string.
Variable chunk_text : string -> Z -> list string.

Variables file_path role jurisdiction text : string.
Variable chunk_size : Z.

Let chunks := chunk_text text chunk_size.
Let run := process_document model json_loads extract_text chunk_text
             file_path role jurisdiction chunk_size.

Hypothesis extracted : extract_text file_path = Some text.
Hypothesis not_empty : text <> EmptyString.

(** With text, the run is the first pass on the truncated file followed
    by the decision of line 103. *)
Lemma process_document_with_text w0 :
  run w0 =
  match first_pass model json_loads chunks role jurisdiction [] (w0 ++ [EvTruncate]) with
  | (Raise e, w1) => (Raise e, w1)
  | (Ok all_clauses, w1) =>
      let total := Z.of_nat (List.length (filter no_error all_clauses)) in
      if (50 <? total)%Z then
        match second_pass model json_loads chunks role jurisdiction total []
                (w1 ++ [EvTruncate]) with
        | (Raise e, w2) => (Raise e, w2)
        | (Ok candidates, w2) =>
            match sorted_by_clause_number candidates with
            | None => (Raise (Exn KeyError "'clause_number'"), w2)
            | Some in_order =>
                (Ok all_clauses,
                 w2 ++ map (EvAppend false)
                         (written (other_clauses all_clauses (firstn 50 in_order)
                                   ++ firstn 50 in_order)))
            end
        end
      else (Ok all_clauses, w1 ++ map (EvAppend false) (written all_clauses))
  end.
Proof.
  unfold run, process_document. rewrite extracted.
  destruct text as [|c t]; [now contradiction not_empty|].
  fold chunks. unfold bind at 1. unfold truncate_file, emit.
  unfold bind at 1.
  destruct (first_pass _ _ chunks _ _ _ _) as [[all_clauses|e] w1]; [|reflexivity].
  cbv zeta.
  destruct (50 <? _)%Z.
  - unfold bind at 1. unfold bind at 1.
    destruct (second_pass _ _ _ _ _ _ _ _) as [[cands|e] w2]; [|reflexivity].
    destruct (sorted_by_clause_number cands); [|reflexivity].
    unfold bind. rewrite append_lines_log. reflexivity.
  - unfold bind. rewrite append_lines_log. reflexivity.
Qed.

(** The path without refinement. *)
Lemma simple_path_run w0 all_clauses w1 :
  first_pass model json_loads chunks role jurisdiction [] (w0 ++ [EvTruncate])
    = (Ok all_clauses, w1) ->
  List.length (filter no_error all_clauses) <= 50 ->
  run w0 = (Ok all_clauses, w1 ++ map (EvAppend false) (written all_clauses)).
Proof.
  intros P1 Hle. rewrite process_document_with_text, P1. cbv zeta.
  destruct (Z.ltb_spec 50 (Z.of_nat (List.length (filter no_error all_clauses))));
    [lia|reflexivity].
Qed.

(** The path with refinement: the second truncation comes right after the
    first pass, and all later events are those of the second pass and of
    the closing write. *)
Lemma refinement_path_run w0 all_clauses w1 :
  first_pass model json_loads chunks role jurisdiction [] (w0 ++ [EvTruncate])
    = (Ok all_clauses, w1) ->
  50 < List.length (filter no_error all_clauses) ->
  let total := Z.of_nat (List.length (filter no_error all_clauses)) in
  exists res2 evs2,
    second_pass model json_loads chunks role jurisdiction total [] (w1 ++ [EvTruncate])
      = (res2, w1 ++ EvTruncate :: evs2)
    /\ Forall (pass_event true
                 (fun p => exists c, In c chunks
                                  /\ p = build_prompt role jurisdiction c true total)) evs2
    /\ (forall v, res2 = Ok v ->
          prompts_of evs2
          = map (fun c => build_prompt role jurisdiction c true total) chunks)
    /\ run w0 =
       match res2 with
       | Raise e => (Raise e, w1 ++ EvTruncate :: evs2)
       | Ok candidates =>
           match sorted_by_clause_number candidates with
           | None => (Raise (Exn KeyError "'clause_number'"), w1 ++ EvTruncate :: evs2)
           | Some in_order =>
               (Ok all_clauses,
                w1 ++ EvTruncate :: evs2
                ++ map (EvAppend false)
                     (written (other_clauses all_clauses (firstn 50 in_order)
                               ++ firstn 50 in_order)))
           end
       end.
Proof.
  intros P1 Hgt total.
  destruct (second_pass model json_loads chunks role jurisdiction total []
              (w1 ++ [EvTruncate])) as [res2 w2] eqn:P2.
  destruct (second_pass_events _ _ _ _ _ _ _ _ _ _ P2) as [evs2 [-> [F2 Q2]]].
  exists res2, evs2. rewrite <- app_assoc. simpl.
  split; [reflexivity|]. split; [exact F2|]. split; [exact Q2|].
  rewrite process_document_with_text, P1. cbv zeta. fold total.
  destruct (Z.ltb_spec 50 total); [|unfold total in *; lia].
  rewrite P2. destruct res2 as [cands|e].
  - destruct (sorted_by_clause_number cands);
      rewrite <- ?app_assoc; simpl; rewrite <- ?app_assoc; reflexivity.
  - rewrite <- app_assoc. reflexivity.
Qed.

End DocumentFacts.

(** ** Termination with a result *)

Section Returns.

Variable model : nat -> string -> response.
Variable json_loads : string -> option (list record).

(** The model fails with exceptions only (nothing like a cancellation). *)
Hypothesis failures_are_Exceptions :
  forall n prompt e, model n prompt = Fails e -> is_Exception e = true.

Lemma process_chunk_returns chunk role jurisdiction fp total w :
  exists clauses,
    fst (process_chunk model json_loads chunk role jurisdiction fp total w) = Ok clauses.
Proof.
  rewrite process_chunk_is_body, process_chunk_body_cases.
  destruct (model _ _) as [e|parts] eqn:E.
  - rewrite (failures_are_Exceptions _ _ _ E). now eexists.
  - destruct (json_loads _) as [[|c cs]|]; now eexists.
Qed.

Lemma first_pass_returns chunks role jurisdiction acc w :
  exists all_clauses,
    fst (first_pass model json_loads chunks role jurisdiction acc w) = Ok all_clauses.
Proof.
  revert acc w. induction chunks as [|chunk rest IH]; intros acc w; simpl.
  - now eexists.
  - unfold bind.
    destruct (process_chunk_returns chunk role jurisdiction false 0%Z w) as [cl H].
    destruct (process_chunk _ _ chunk _ _ _ _ w) as [r w1]. simpl in H. subst r.
    apply IH.
Qed.

Lemma second_pass_returns chunks role jurisdiction total acc w :
  exists candidates,
    fst (second_pass model json_loads chunks role jurisdiction total acc w)
    = Ok candidates.
Proof.
  revert acc w. induction chunks as [|chunk rest IH]; intros acc w; simpl.
  - now eexists.
  - unfold bind.
    destruct (process_chunk_returns chunk role jurisdiction true total w) as [cl H].
    destruct (process_chunk _ _ chunk _ _ _ _ w) as [r w1]. simpl in H. subst r.
    apply IH.
Qed.

End Returns.

(** * The claims *)

(** ** Prompt builder *)

Lemma append_assoc (a b c : string) : ((a ++ b) ++ c)%string = (a ++ (b ++ c))%string.
Proof. induction a as [|x a IH]; simpl; [reflexivity|now rewrite IH]. Qed.

(** The two branches of the prompt share everything but the negotiation
    rule and the negotiation of the example. *)
Lemma build_prompt_factored (role jurisdiction chunk : string)
    (is_final_pass : bool) (total_clauses : Z) :
  build_prompt role jurisdiction chunk is_final_pass total_clauses
  = (prompt_head role jurisdiction
     ++ "'clause_risk' (low, medium, high, very high), "
     ++ negotiation_rule (is_final_pass && (50 <? total_clauses)%Z)
     ++ ". Ensure valid JSON output. Example: "
     ++ example_object (example_negotiation (is_final_pass && (50 <? total_clauses)%Z))
     ++ ". Text: " ++ chunk)%string.
Proof.
  unfold build_prompt, prompt_head.
  destruct (is_final_pass && (50 <? total_clauses)%Z);
    cbn [negotiation_rule example_negotiation];
    repeat rewrite append_assoc; reflexivity.
Qed.

(** C8.  The prompt is a function of its five inputs only.  It is the
    common instruction text for the role and the jurisdiction, the
    negotiation rule, the example and the chunk, and the negotiation rule
    asks for a concrete suggestion for very-high-risk clauses exactly when
    [is_final_pass] holds and [total_clauses] exceeds 50; in every other
    case it asks for "NIL" for all risks. *)
Theorem build_prompt_variant (role jurisdiction chunk : string)
    (is_final_pass : bool) (total_clauses : Z) :
  let suggest := is_final_pass && (50 <? total_clauses)%Z in
  build_prompt role jurisdiction chunk is_final_pass total_clauses
  = (prompt_head role jurisdiction
     ++ "'clause_risk' (low, medium, high, very high), "
     ++ negotiation_rule suggest
     ++ ". Ensure valid JSON output. Example: "
     ++ example_object (example_negotiation suggest)
     ++ ". Text: " ++ chunk)%string
  /\ (suggest = true <-> is_final_pass = true /\ (50 < total_clauses)%Z)
  /\ negotiation_rule true
     = "'negotiation' ('NIL' for low/medium/high risk, concise negotiation suggestion for very high risk)"%string
  /\ negotiation_rule false = "'negotiation' ('NIL' for all risks)"%string.
Proof.
  intro suggest. split; [|split; [|split; reflexivity]].
  - apply build_prompt_factored.
  - unfold suggest. rewrite andb_true_iff, Z.ltb_lt. tauto.
Qed.

(** ** Response parser *)

Lemma substring_prefix n s :
  exists rest, s = (substring 0 n s ++ rest)%string
            /\ String.length (substring 0 n s) = Nat.min n (String.length s).
Proof.
  revert s. induction n as [|n IH]; intros [|c s]; simpl.
  - now exists EmptyString.
  - now exists (String c s).
  - now exists EmptyString.
  - destruct (IH s) as [rest [E L]]. exists rest. split; [now rewrite <- E|now rewrite L].
Qed.

(** C4.  When the cleaned response of the model does not decode,
    [process_chunk] returns exactly one record, the fallback clause:
    number "unknown", risk "medium", negotiation "NIL", and as text the
    first 1000 characters of the chunk. *)
Theorem decode_failure_gives_fallback
    (model : nat -> string -> response) (json_loads : string -> option (list record))
    (chunk role jurisdiction : string) (is_final_pass : bool) (total_clauses : Z)
    (w : world) (parts : list string) :
  model (ncalls w) (build_prompt role jurisdiction chunk is_final_pass total_clauses)
    = Streams parts ->
  json_loads (clean_response (String.concat "" parts)) = None ->
  exists clause_text rest,
    fst (process_chunk model json_loads chunk role jurisdiction
           is_final_pass total_clauses w)
    = Ok [ [ ("clause_number", "unknown"%string); ("clause_text", clause_text);
             ("clause_risk", "medium"%string); ("negotiation", "NIL"%string) ] ]
    /\ chunk = (clause_text ++ rest)%string
    /\ String.length clause_text = Nat.min 1000 (String.length chunk).
Proof.
  intros Hm Hd. destruct (substring_prefix 1000 chunk) as [rest [E L]].
  exists (substring 0 1000 chunk), rest.
  rewrite process_chunk_is_body, process_chunk_body_cases. cbv zeta.
  rewrite Hm, Hd. repeat split; [exact E|exact L].
Qed.

(** ** Orchestrator *)

(** C9.  When no text is extracted from the document (nothing, or the
    empty string), the run makes no model invocation, returns the empty
    sequence, and leaves in the output file exactly one line, the error
    record "No text extracted from document". *)
Theorem no_text_short_circuit
    (model : nat -> string -> response) (json_loads : string -> option (list record))
    (extract_text : string -> option string) (chunk_text : string -> Z -> list string)
    (file_path role jurisdiction : string) (chunk_size : Z) (w0 : world) :
  extract_text file_path = None \/ extract_text file_path = Some EmptyString ->
  let run := process_document model json_loads extract_text chunk_text
               file_path role jurisdiction chunk_size w0 in
  fst run = Ok []
  /\ snd run = w0 ++ [EvTruncate; EvAppend true no_text_record]
  /\ prompts_of (snd run) = prompts_of w0
  /\ file_text (snd run)
     = ("{" ++ quoted "error" ++ ": " ++ quoted "No text extracted from document"
        ++ "}" ++ nl)%string.
Proof.
  intros H run.
  assert (R : run = (Ok [], w0 ++ [EvTruncate; EvAppend true no_text_record])).
  { unfold run, process_document, bind, truncate_file, append_line, emit, ret.
    destruct H as [-> | ->]; rewrite <- app_assoc; reflexivity. }
  rewrite R. simpl fst. simpl snd. repeat split.
  - rewrite prompts_of_app. simpl. now rewrite app_nil_r.
  - unfold file_text, file_of. rewrite file_from_app. reflexivity.
Qed.

Lemma file_of_truncated w evs : file_of ((w ++ [EvTruncate]) ++ evs) = file_from [] evs.
Proof.
  unfold file_of. rewrite !file_from_app. reflexivity.
Qed.

Lemma file_of_after_truncate w evs : file_of (w ++ EvTruncate :: evs) = file_from [] evs.
Proof.
  change (w ++ EvTruncate :: evs) with (w ++ [EvTruncate] ++ evs).
  rewrite app_assoc. apply file_of_truncated.
Qed.




(** C1, as the code has it.  When the first pass yields more than 50
    records without an error key, the file is truncated right after the
    first pass and nothing written before is in the final file.  When the
    run completes, the refinement pass has invoked the model once per
    chunk with the final-pass prompt, and the records selected from its
    very-high candidates (the first 50 in ascending order of
    [clause_number], compared as strings) are at most 50, all very-high
    and in that order; the closing write appends the first-pass records
    that are not very-high or equal one of the selected, then the
    selected, without those that carry an error key. *)
Theorem refinement_path_selection
    (model : nat -> string -> response) (json_loads : string -> option (list record))
    (extract_text : string -> option string) (chunk_text : string -> Z -> list string)
    (file_path role jurisdiction text : string) (chunk_size : Z)
    (w0 : world) (all_clauses : list record) :
  extract_text file_path = Some text ->
  text <> EmptyString ->
  let chunks := chunk_text text chunk_size in
  let pass1 := first_pass model json_loads chunks role jurisdiction []
                 (w0 ++ [EvTruncate]) in
  fst pass1 = Ok all_clauses ->
  50 < List.length (filter no_error all_clauses) ->
  let total := Z.of_nat (List.length (filter no_error all_clauses)) in
  let pass2 := second_pass model json_loads chunks role jurisdiction total []
                 (snd pass1 ++ [EvTruncate]) in
  let run := process_document model json_loads extract_text chunk_text
               file_path role jurisdiction chunk_size w0 in
  exists evs,
    snd run = snd pass1 ++ EvTruncate :: evs
    /\ truncations evs = 0
    /\ file_of (snd run) = file_from [] evs
    /\ forall v, fst run = Ok v ->
         prompts_of evs
         = map (fun c => build_prompt role jurisdiction c true total) chunks
         /\ exists candidates in_order,
              fst pass2 = Ok candidates
              /\ Permutation in_order candidates
              /\ StronglySorted number_le in_order
              /\ let very_high_clauses := firstn 50 in_order in
                 List.length very_high_clauses <= 50
                 /\ StronglySorted number_le very_high_clauses
                 /\ Forall (fun c => is_very_high c = true) very_high_clauses
                 /\ file_of (snd run)
                    = file_of (snd pass2)
                      ++ map (pair false)
                           (written (other_clauses all_clauses very_high_clauses
                                     ++ very_high_clauses)).
Proof.
  intros Ht Hne chunks pass1 P1 Hgt total pass2 run.
  destruct pass1 as [res w1] eqn:E1. simpl in P1. subst res. simpl snd in *.
  destruct (refinement_path_run model json_loads extract_text chunk_text
              file_path role jurisdiction text chunk_size Ht Hne w0 all_clauses w1
              E1 Hgt) as [res2 [evs2 [E2 [F2 [Q2 R]]]]].
  fold chunks total in E2, F2, Q2, R. fold run in R. fold pass2 in E2.
  destruct (pass_events_quiet _ _ _ F2) as [T2 [_ _]].
  destruct res2 as [cands|e].
  - destruct (sorted_by_clause_number cands) as [in_order|] eqn:S.
    + exists (evs2 ++ map (EvAppend false)
                (written (other_clauses all_clauses (firstn 50 in_order)
                          ++ firstn 50 in_order))).
      rewrite R. simpl fst. simpl snd. split; [reflexivity|]. split.
      { now rewrite truncations_app, truncations_appends, T2. }
      split; [apply file_of_after_truncate|].
      intros v _. split.
      { rewrite prompts_of_app, prompts_of_appends, app_nil_r.
        exact (Q2 cands eq_refl). }
      exists cands, in_order. rewrite E2. simpl fst. simpl snd.
      destruct (sorted_by_clause_number_spec _ _ S) as [Pm Ss].
      destruct (top50_spec _ _ S) as [L [S50 [I50 _]]].
      split; [reflexivity|]. split; [exact Pm|]. split; [exact Ss|].
      cbv zeta. split; [exact L|]. split; [exact S50|]. split.
      * apply Forall_forall. intros c Hc. apply I50 in Hc.
        pose proof (second_pass_very_high _ _ _ _ _ _ _ _ _ _ E2 (Forall_nil _)) as V.
        rewrite Forall_forall in V. now apply V.
      * rewrite !file_of_after_truncate, file_from_app, file_from_appends.
        reflexivity.
    + exists evs2. rewrite R. simpl. split; [reflexivity|]. split; [exact T2|].
      split; [apply file_of_after_truncate|]. discriminate.
  - exists evs2. rewrite R. simpl. split; [reflexivity|]. split; [exact T2|].
    split; [apply file_of_after_truncate|]. discriminate.
Qed.

(** C10.  When the first pass yields more than 50 records without an error
    key, every model invocation after the second truncation is made by a
    call of [process_chunk] with [is_final_pass = True] and the count of
    the first pass, which exceeds 50; its prompt is therefore the variant
    that asks for a negotiation suggestion.  When the run completes there
    is one such invocation per chunk, in chunk order. *)
Theorem second_pass_prompts
    (model : nat -> string -> response) (json_loads : string -> option (list record))
    (extract_text : string -> option string) (chunk_text : string -> Z -> list string)
    (file_path role jurisdiction text : string) (chunk_size : Z)
    (w0 : world) (all_clauses : list record) :
  extract_text file_path = Some text ->
  text <> EmptyString ->
  let chunks := chunk_text text chunk_size in
  let pass1 := first_pass model json_loads chunks role jurisdiction []
                 (w0 ++ [EvTruncate]) in
  fst pass1 = Ok all_clauses ->
  50 < List.length (filter no_error all_clauses) ->
  let total := Z.of_nat (List.length (filter no_error all_clauses)) in
  let run := process_document model json_loads extract_text chunk_text
               file_path role jurisdiction chunk_size w0 in
  exists evs,
    snd run = snd pass1 ++ EvTruncate :: evs
    /\ (50 < total)%Z
    /\ Forall (fun p => exists chunk,
                 In chunk chunks
                 /\ p = build_prompt role jurisdiction chunk true total
                 /\ p = (prompt_head role jurisdiction
                         ++ "'clause_risk' (low, medium, high, very high), "
                         ++ negotiation_rule true
                         ++ ". Ensure valid JSON output. Example: "
                         ++ example_object "Limit liability..."
                         ++ ". Text: " ++ chunk)%string)
         (prompts_of evs)
    /\ (forall v, fst run = Ok v ->
          prompts_of evs
          = map (fun c => build_prompt role jurisdiction c true total) chunks).
Proof.
  intros Ht Hne chunks pass1 P1 Hgt total run.
  destruct pass1 as [res w1] eqn:E1. simpl in P1. subst res. simpl snd in *.
  destruct (refinement_path_run model json_loads extract_text chunk_text
              file_path role jurisdiction text chunk_size Ht Hne w0 all_clauses w1
              E1 Hgt) as [res2 [evs2 [E2 [F2 [Q2 R]]]]].
  fold chunks total in E2, F2, Q2, R. fold run in R.
  assert (Hz : (50 < total)%Z) by (unfold total; lia).
  assert (Hp : Forall (fun p => exists chunk,
                 In chunk chunks
                 /\ p = build_prompt role jurisdiction chunk true total
                 /\ p = (prompt_head role jurisdiction
                         ++ "'clause_risk' (low, medium, high, very high), "
                         ++ negotiation_rule true
                         ++ ". Ensure valid JSON output. Example: "
                         ++ example_object "Limit liability..."
                         ++ ". Text: " ++ chunk)%string)
                (prompts_of evs2)).
  { destruct (pass_events_quiet _ _ _ F2) as [_ [_ P]].
    eapply Forall_impl; [|exact P]. intros p [c [Hc ->]]. exists c.
    split; [exact Hc|]. split; [reflexivity|].
    rewrite build_prompt_factored.
    replace (true && (50 <? total)%Z) with true; [reflexivity|].
    symmetry. apply andb_true_iff. split; [reflexivity|now apply Z.ltb_lt]. }
  destruct res2 as [cands|e]; [destruct (sorted_by_clause_number cands) as [in_order|]|].
  - exists (evs2 ++ map (EvAppend false)
              (written (other_clauses all_clauses (firstn 50 in_order)
                        ++ firstn 50 in_order))).
    rewrite R. simpl fst. simpl snd.
    rewrite prompts_of_app, prompts_of_appends, app_nil_r.
    repeat split; try assumption. intros v _. exact (Q2 cands eq_refl).
  - exists evs2. rewrite R. simpl. repeat split; try assumption; discriminate.
  - exists evs2. rewrite R. simpl. repeat split; try assumption; discriminate.
Qed.

(** C6, as the code has it.  The records of the closing write never carry
    an error key, but what the calls of [process_chunk] appended since the
    last truncation stays in the file, error records included: in the
    path without refinement the final file is the file as the first pass
    left it followed by the closing records; in the path with refinement it
    is the file as the second pass left it followed by the closing
    records. *)
Theorem closing_write_keeps_earlier_lines
    (model : nat -> string -> response) (json_loads : string -> option (list record))
    (extract_text : string -> option string) (chunk_text : string -> Z -> list string)
    (file_path role jurisdiction text : string) (chunk_size : Z)
    (w0 : world) (all_clauses : list record) :
  extract_text file_path = Some text ->
  text <> EmptyString ->
  let chunks := chunk_text text chunk_size in
  let pass1 := first_pass model json_loads chunks role jurisdiction []
                 (w0 ++ [EvTruncate]) in
  fst pass1 = Ok all_clauses ->
  let count := List.length (filter no_error all_clauses) in
  let pass2 := second_pass model json_loads chunks role jurisdiction
                 (Z.of_nat count) [] (snd pass1 ++ [EvTruncate]) in
  let run := process_document model json_loads extract_text chunk_text
               file_path role jurisdiction chunk_size w0 in
  (count <= 50 ->
     exists closing,
       file_of (snd run) = file_of (snd pass1) ++ map (pair false) closing
       /\ closing = filter no_error all_clauses
       /\ Forall (fun c => has_key "error" c = false) closing)
  /\ (50 < count ->
      forall v, fst run = Ok v ->
      exists closing,
        file_of (snd run) = file_of (snd pass2) ++ map (pair false) closing
        /\ Forall (fun c => has_key "error" c = false) closing).
Proof.
  intros Ht Hne chunks pass1 P1 count pass2 run.
  assert (NE : forall l, Forall (fun c => has_key "error" c = false) (written l)).
  { intro l. eapply Forall_impl; [|apply written_no_error].
    intros c Hc. unfold no_error in Hc. now apply negb_true_iff in Hc. }
  destruct pass1 as [res w1] eqn:E1. simpl in P1. subst res. simpl snd in *.
  split.
  - intro Hle. exists (written all_clauses). unfold run.
    rewrite (simple_path_run _ _ _ _ _ _ _ _ _ Ht Hne _ _ _ E1 Hle). simpl snd.
    split; [|split; [reflexivity|apply NE]].
    unfold file_of. now rewrite file_from_app, file_from_appends.
  - intros Hgt v Hv.
    destruct (refinement_path_run model json_loads extract_text chunk_text
                file_path role jurisdiction text chunk_size Ht Hne w0 all_clauses w1
                E1 Hgt) as [res2 [evs2 [E2 [F2 [Q2 R]]]]].
    fold chunks count in E2, R. fold run in R. fold pass2 in E2.
    rewrite R in Hv |- *. rewrite E2. simpl snd.
    destruct res2 as [cands|e]; [|discriminate].
    destruct (sorted_by_clause_number cands) as [in_order|]; [|discriminate].
    exists (written (other_clauses all_clauses (firstn 50 in_order)
                     ++ firstn 50 in_order)).
    split; [|apply NE]. simpl snd.
    rewrite !file_of_after_truncate, file_from_app, file_from_appends. reflexivity.
Qed.


(** ** Model invoker *)

(** A call of [process_chunk] invokes the model exactly once and never
    waits, whatever the model does. *)
Lemma process_chunk_single_attempt
    (model : nat -> string -> response) (json_loads : string -> option (list record))
    (chunk role jurisdiction : string) (is_final_pass : bool) (total_clauses : Z)
    (w : world) :
  let w' := snd (process_chunk model json_loads chunk role jurisdiction
                   is_final_pass total_clauses w) in
  prompts_of w'
  = prompts_of w ++ [build_prompt role jurisdiction chunk is_final_pass total_clauses]
  /\ sleeps_of w' = sleeps_of w.
Proof.
  intro w'. unfold w'.
  destruct (process_chunk_events model json_loads chunk role jurisdiction
              is_final_pass total_clauses w) as [evs [-> F]].
  destruct (pass_events_quiet _ _ _ F) as [_ [S _]].
  rewrite prompts_of_app, sleeps_of_app. simpl.
  rewrite (appends_no_prompts _ _ F), S, app_nil_r. split; reflexivity.
Qed.

(** A failure of a retried class reaches the handler of [process_chunk],
    not the decorator: the chunk yields no record. *)
Lemma process_chunk_swallows_transient_failure
    (model : nat -> string -> response) (json_loads : string -> option (list record))
    (chunk role jurisdiction : string) (is_final_pass : bool) (total_clauses : Z)
    (w : world) (e : exn) :
  model (ncalls w) (build_prompt role jurisdiction chunk is_final_pass total_clauses)
    = Fails e ->
  retry_if_exception_type e = true ->
  fst (process_chunk model json_loads chunk role jurisdiction
         is_final_pass total_clauses w) = Ok [].
Proof.
  intros Hm Hr. rewrite process_chunk_is_body, process_chunk_body_cases. cbv zeta.
  rewrite Hm. replace (is_Exception e) with true; [reflexivity|].
  unfold retry_if_exception_type in Hr. unfold is_Exception.
  destruct (exn_class_of e); try discriminate; reflexivity.
Qed.

(** The waits of [wait_exponential(multiplier=1, min=1, max=10)]. *)
Lemma wait_exponential_values :
  map (wait_exponential 1 1 10) [1; 2; 3; 4; 5; 6] = [1; 2; 4; 8; 10; 10].
Proof. reflexivity. Qed.

(** The decorator around the bare model call does what the policy says:
    three attempts, waits of 1 and 2, then [RetryError]; and a success on
    the second attempt after one wait. *)
Lemma decorator_around_bare_call (model : nat -> string -> response)
    (prompt : string) (e : exn) :
  retry_if_exception_type e = true ->
  (forall n, model n prompt = Fails e) ->
  retry 3 (wait_exponential 1 1 10) retry_if_exception_type
    (generate_content model prompt) []
  = (Raise (Exn RetryError "RetryError"),
     [EvCall prompt; EvSleep 1; EvCall prompt; EvSleep 2; EvCall prompt]).
Proof.
  intros Hr Hm. unfold retry, generate_content. simpl.
  repeat (first [rewrite Hm | rewrite Hr]; simpl). reflexivity.
Qed.

Lemma decorator_around_flaky_call (prompt : string) :
  retry 3 (wait_exponential 1 1 10) retry_if_exception_type
    (generate_content flaky_model prompt) []
  = (Ok (json_list [payment_clause]), [EvCall prompt; EvSleep 1; EvCall prompt]).
Proof. reflexivity. Qed.

(** C3.  The model fails with [ResourceExhausted] on the first invocation
    and would answer on the second: [process_chunk] makes one invocation,
    does not wait, and returns no record (in the final pass it writes the
    error record); the invocation is not retried. *)
Theorem transient_failure_is_not_retried :
  flaky_model 0 (build_prompt "client" "India" payment_chunk false 0)
    = Fails (Exn ResourceExhausted "429 Quota exceeded")
  /\ flaky_model 1 (build_prompt "client" "India" payment_chunk false 0)
     = Streams [json_list [payment_clause]]
  /\ process_chunk flaky_model (loads_table [[payment_clause]]) payment_chunk
       "client" "India" false 0 []
     = (Ok [], [EvCall (build_prompt "client" "India" payment_chunk false 0)])
  /\ process_chunk flaky_model (loads_table [[payment_clause]]) payment_chunk
       "client" "India" true 51 []
     = (Ok [], [EvCall (build_prompt "client" "India" payment_chunk true 51);
                EvAppend true [("error", "Processing error: 429 Quota exceeded"%string)]]).
Proof. repeat split. Qed.

(** ** Concrete runs *)

Lemma ascendingb_cons a b l :
  ascendingb (a :: b :: l)
  = match get "clause_number" a, get "clause_number" b with
    | Some ka, Some kb => (ka <=? kb)%string
    | _, _ => false
    end && ascendingb (b :: l).
Proof. reflexivity. Qed.

Lemma StronglySorted_ascendingb l :
  StronglySorted number_le l -> ascendingb l = true.
Proof.
  induction 1 as [|a l S IH F]; [reflexivity|].
  destruct l as [|b l]; [reflexivity|].
  rewrite ascendingb_cons, IH, andb_true_r.
  inversion F as [|? ? [ka [kb [Ka [Kb L]]]] _]; subst.
  rewrite Ka, Kb. exact L.
Qed.

Lemma not_all_no_error (rs : list record) :
  forallb no_error rs = false -> ~ Forall (fun r => no_error r = true) rs.
Proof.
  intros H F. rewrite Forall_forall in F.
  assert (forallb no_error rs = true) by (apply forallb_forall; exact F).
  congruence.
Qed.

Lemma not_ascending l : ascendingb l = false -> ~ StronglySorted number_le l.
Proof.
  intros H S. apply StronglySorted_ascendingb in S. congruence.
Qed.

Lemma option_string_eqb_eq a b : option_string_eqb a b = true <-> a = b.
Proof.
  destruct a as [x|], b as [y|]; simpl; try (split; [discriminate|discriminate]).
  - rewrite String.eqb_eq. split; [now intros ->|now intros [= ->]].
  - tauto.
Qed.

Lemma number_not_in n l :
  existsb (option_string_eqb (Some n)) l = false -> ~ In (Some n) l.
Proof.
  intros H I.
  assert (existsb (option_string_eqb (Some n)) l = true).
  { apply existsb_exists. exists (Some n). split; [exact I|].
    now apply option_string_eqb_eq. }
  congruence.
Qed.

(** C5, as the code has it.  In the run with 60 chunks, each answered with
    one very-high clause numbered 1 to 60, the refinement pass appends its
    60 records to the truncated file and the closing write appends the 50
    selected ones: those whose numbers come first in the order of strings,
    "1", "10", ..., "19", "2", "20", ..., "49", "5", "50", ..., "54". *)
Theorem sixty_chunks_selection :
  let file := file_records (snd sixty_run) in
  fst sixty_run = Ok (map (fun i => very_high_clause i "NIL") (seq 1 60))
  /\ firstn 60 file = map (fun i => very_high_clause i "Cap the liability") (seq 1 60)
  /\ List.length (skipn 60 file) = 50
  /\ forallb is_very_high (skipn 60 file) = true
  /\ numbers (skipn 60 file) = map Some first_fifty_as_strings
  /\ skipn 60 file
     = map (fun n => clause n ("Clause " ++ n) "very high" "Cap the liability")
         first_fifty_as_strings.
Proof. vm_compute. repeat split. Qed.

(** C5 as stated fails: the selected records are not those numbered "1"
    to "50" ("6" is not among them, "51" is), and neither the whole file
    nor the returned sequence has 50 very-high records. *)
Lemma sixty_chunks_not_one_to_fifty :
  let file := file_records (snd sixty_run) in
  ~ (forall n, In (Some n) (numbers (skipn 60 file))
               <-> In n (map decimal (seq 1 50)))
  /\ List.length (filter is_very_high file) = 110
  /\ (exists returned, fst sixty_run = Ok returned
                       /\ List.length (filter is_very_high returned) = 60).
Proof.
  split; [|split].
  - intro H.
    assert (N : ~ In (Some "6"%string)
                  (numbers (skipn 60 (file_records (snd sixty_run))))).
    { apply number_not_in. vm_compute. reflexivity. }
    apply N. apply (proj2 (H "6"%string)).
    apply in_map_iff. exists 6. split; [reflexivity|].
    apply in_seq. lia.
  - vm_compute. reflexivity.
  - eexists. split; [vm_compute; reflexivity|]. vm_compute. reflexivity.
Qed.

(** C1 as stated fails.  The model answers the one productive chunk with
    the same 51 very-high records in both passes.  The first pass counts
    51 records, the refinement runs, and the very-high records number 51
    in the returned sequence, 151 in the final file and 100 in the closing
    write, where they are not in ascending order either. *)
Lemma refinement_output_exceeds_fifty :
  fst (first_pass steady_model (loads_table long_table) long_chunks
         "client" "India" [] [EvTruncate]) = Ok (fifty_one "NIL")
  /\ 50 < List.length (filter no_error (fifty_one "NIL"))
  /\ fst steady_run = Ok (fifty_one "NIL")
  /\ ~ List.length (filter is_very_high (fifty_one "NIL")) <= 50
  /\ ~ List.length (filter is_very_high (file_records (snd steady_run))) <= 50
  /\ option_map (firstn 50) (sorted_by_clause_number (fifty_one "NIL"))
     = Some (selected_of "NIL")
  /\ let closing := written (other_clauses (fifty_one "NIL") (selected_of "NIL")
                             ++ selected_of "NIL") in
     skipn 52 (file_records (snd steady_run)) = closing
     /\ ~ List.length (filter is_very_high closing) <= 50
     /\ ~ StronglySorted number_le (filter is_very_high closing).
Proof.
  split; [vm_compute; reflexivity|].
  split; [vm_compute; lia|].
  split; [vm_compute; reflexivity|].
  split; [vm_compute; lia|].
  split; [vm_compute; lia|].
  split; [vm_compute; reflexivity|].
  split; [vm_compute; reflexivity|].
  split; [vm_compute; lia|].
  apply not_ascending. vm_compute. reflexivity.
Qed.

(** C6 as stated fails.  Without refinement, the "No clauses found in
    chunk" record of the second chunk is in the final file; with
    refinement, the "Processing error" record of the second pass is. *)
Lemma error_records_stay_in_final_file :
  (prompts_of (snd small_run)
   = map (fun c => build_prompt "client" "India" c false 0) small_chunks
   /\ file_of (snd small_run)
      = [ (true, no_clauses_record); (false, payment_clause); (false, liability_clause) ]
   /\ ~ Forall (fun r => no_error r = true) (file_records (snd small_run)))
  /\ (truncations (snd steady_run) = 2
      /\ nth_error (file_of (snd steady_run)) 51
         = Some (true, [("error", "Processing error: 500 Internal error"%string)])
      /\ ~ Forall (fun r => no_error r = true) (file_records (snd steady_run))).
Proof.
  split; (split; [vm_compute; reflexivity|]);
    (split; [vm_compute; reflexivity|]);
    apply not_all_no_error; vm_compute; reflexivity.
Qed.



(** ** The theorems at concrete runs *)

Lemma Forall_of_forallb {A} (f : A -> bool) (l : list A) :
  forallb f l = true -> Forall (fun x => f x = true) l.
Proof.
  intro H. apply Forall_forall. now apply forallb_forall.
Qed.

(** A chunk of 1400 characters answered in prose: the one record is the
    fallback clause with the first 1000 characters. *)
Lemma decode_failure_gives_fallback_witness :
  exists clause_text rest,
    fst (process_chunk prose_model loads_nothing long_chunk "client" "India" true 51 [])
    = Ok [ [ ("clause_number", "unknown"%string); ("clause_text", clause_text);
             ("clause_risk", "medium"%string); ("negotiation", "NIL"%string) ] ]
    /\ long_chunk = (clause_text ++ rest)%string
    /\ String.length clause_text = Nat.min 1000 (String.length long_chunk).
Proof.
  apply (decode_failure_gives_fallback prose_model loads_nothing long_chunk
           "client" "India" true 51 []
           ["I could not find "; "any clause in this text."]%string).
  - reflexivity.
  - reflexivity.
Defined.

(** A scan without text. *)
Lemma no_text_short_circuit_witness :
  let run := process_document prose_model loads_nothing no_text (fun _ _ => [])
               "scan.pdf" "client" "India" 1000 [] in
  fst run = Ok []
  /\ snd run = [] ++ [EvTruncate; EvAppend true no_text_record]
  /\ prompts_of (snd run) = prompts_of []
  /\ file_text (snd run)
     = ("{" ++ quoted "error" ++ ": " ++ quoted "No text extracted from document"
        ++ "}" ++ nl)%string.
Proof.
  apply (no_text_short_circuit prose_model loads_nothing no_text (fun _ _ => [])
           "scan.pdf" "client" "India" 1000 []).
  left. reflexivity.
Defined.


(** The long document with the advising model: the refinement runs on the
    truncated file. *)
Lemma refinement_path_selection_witness :
  exists evs,
    snd advising_run
    = snd (first_pass advising_model (loads_table long_table) long_chunks
             "client" "India" [] [EvTruncate]) ++ EvTruncate :: evs
    /\ truncations evs = 0
    /\ file_of (snd advising_run) = file_from [] evs
    /\ prompts_of evs
       = map (fun c => build_prompt "client" "India" c true 51) long_chunks.
Proof.
  destruct (refinement_path_selection advising_model (loads_table long_table)
              some_text (fun _ _ => long_chunks) "contract.pdf" "client" "India"
              "contract text" 1000 [] (fifty_one "NIL"))
    as [evs [A [B [C D]]]].
  - reflexivity.
  - discriminate.
  - vm_compute. reflexivity.
  - vm_compute. lia.
  - exists evs. split; [exact A|]. split; [exact B|]. split; [exact C|].
    destruct (D (fifty_one "NIL")) as [P _]; [vm_compute; reflexivity|exact P].
Defined.

Lemma second_pass_prompts_witness :
  exists evs,
    snd advising_run
    = snd (first_pass advising_model (loads_table long_table) long_chunks
             "client" "India" [] [EvTruncate]) ++ EvTruncate :: evs
    /\ (50 < 51)%Z
    /\ prompts_of evs
       = map (fun c => build_prompt "client" "India" c true 51) long_chunks.
Proof.
  destruct (second_pass_prompts advising_model (loads_table long_table)
              some_text (fun _ _ => long_chunks) "contract.pdf" "client" "India"
              "contract text" 1000 [] (fifty_one "NIL"))
    as [evs [A [B [_ D]]]].
  - reflexivity.
  - discriminate.
  - vm_compute. reflexivity.
  - vm_compute. lia.
  - exists evs. split; [exact A|]. split; [exact B|].
    apply (D (fifty_one "NIL")). vm_compute. reflexivity.
Defined.

(** The small document: the error record of the first pass stays in front
    of the closing records. *)
Lemma closing_write_keeps_earlier_lines_witness :
  exists closing,
    file_of (snd small_run)
    = file_of (snd (first_pass small_model (loads_table small_table) small_chunks
                      "client" "India" [] [EvTruncate]))
      ++ map (pair false) closing
    /\ closing = filter no_error [payment_clause; liability_clause]
    /\ Forall (fun c => has_key "error" c = false) closing.
Proof.
  destruct (closing_write_keeps_earlier_lines small_model (loads_table small_table)
              some_text (fun _ _ => small_chunks) "contract.pdf" "client" "India"
              "contract text" 1000 [] [payment_clause; liability_clause])
    as [S _].
  - reflexivity.
  - discriminate.
  - vm_compute. reflexivity.
  - apply S. vm_compute. lia.
Defined.


(** * Further properties of the code *)

(** ** What one call of [process_chunk] leaves behind *)



Lemma appended_appends a rs : appended (map (EvAppend a) rs) = map (pair a) rs.
Proof. induction rs as [|r rs IH]; simpl; [reflexivity|now rewrite IH]. Qed.

Lemma appended_app (a b : world) : appended (a ++ b) = appended a ++ appended b.
Proof.
  induction a as [|e a IH]; simpl; [reflexivity|].
  destruct e; simpl; rewrite IH; reflexivity.
Qed.

Section ChunkTraces.

Variable model : nat -> string -> response.
Variable json_loads : string -> option (list record).

(** A call in the final pass, in full: one invocation, then either the
    returned records as lines, or one error record when nothing is
    returned. *)
Lemma final_chunk_step chunk role jurisdiction total w :
  exists res evs,
    process_chunk model json_loads chunk role jurisdiction true total w
    = (res, w ++ EvCall (build_prompt role jurisdiction chunk true total) :: evs)
    /\ Forall (pass_event true (fun _ => False)) evs
    /\ forall clauses, res = Ok clauses ->
         (clauses <> [] -> appended evs = map (pair false) clauses)
         /\ (clauses = [] ->
             exists msg, appended evs = [(true, [("error"%string, msg)])]).
Proof.
  rewrite process_chunk_is_body, process_chunk_body_cases. cbv zeta.
  set (p := build_prompt role jurisdiction chunk true total).
  destruct (model (ncalls w) p) as [e|parts].
  - destruct (is_Exception e).
    + exists (Ok []), [EvAppend true (processing_error_record e)].
      rewrite <- app_assoc. split; [reflexivity|]. split.
      * constructor; [simpl; now left|constructor].
      * intros cl H. inversion H; subst. split; [congruence|].
        intros _. eexists. reflexivity.
    + exists (Raise e), []. split; [reflexivity|]. split; [constructor|discriminate].
  - destruct (json_loads _) as [[|c cs]|].
    + exists (Ok []), [EvAppend true no_clauses_record].
      rewrite <- app_assoc. split; [reflexivity|]. split.
      * constructor; [simpl; now left|constructor].
      * intros cl H. inversion H; subst. split; [congruence|].
        intros _. eexists. reflexivity.
    + exists (Ok (c :: cs)), (map (EvAppend false) (c :: cs)).
      rewrite <- app_assoc. split; [reflexivity|]. split.
      * apply Forall_map, Forall_forall. intros x _. simpl. now left.
      * intros cl H. inversion H; subst. split; [|discriminate].
        intros _. apply appended_appends.
    + exists (Ok [fallback_clause chunk]), [EvAppend false (fallback_clause chunk)].
      rewrite <- app_assoc. split; [reflexivity|]. split.
      * constructor; [simpl; now left|constructor].
      * intros cl H. inversion H; subst. split; [reflexivity|discriminate].
Qed.

(** A call in the first pass, in full: one invocation, and at most one
    line, the "No clauses found in chunk" record, with nothing returned. *)
Lemma first_chunk_step chunk role jurisdiction total w :
  exists res evs,
    process_chunk model json_loads chunk role jurisdiction false total w
    = (res, w ++ EvCall (build_prompt role jurisdiction chunk false total) :: evs)
    /\ (evs = [] \/ (evs = [EvAppend true no_clauses_record] /\ res = Ok [])).
Proof.
  rewrite process_chunk_is_body, process_chunk_body_cases. cbv zeta.
  set (p := build_prompt role jurisdiction chunk false total).
  destruct (model (ncalls w) p) as [e|parts].
  - destruct (is_Exception e); eexists _, []; split; try reflexivity; now left.
  - destruct (json_loads _) as [[|c cs]|].
    + exists (Ok []), [EvAppend true no_clauses_record].
      rewrite <- app_assoc. split; [reflexivity|]. right. split; reflexivity.
    + eexists _, []. split; [reflexivity|now left].
    + eexists _, []. split; [reflexivity|now left].
Qed.

End ChunkTraces.






(** The only exception a call lets through is one that is not an
    [Exception], exactly as the model raised it, after the one invocation
    and without a line written. *)
Theorem process_chunk_raises_only_non_exceptions
    (model : nat -> string -> response) (json_loads : string -> option (list record))
    (chunk role jurisdiction : string) (is_final_pass : bool) (total_clauses : Z)
    (w : world) (e : exn) :
  let prompt := build_prompt role jurisdiction chunk is_final_pass total_clauses in
  let out := process_chunk model json_loads chunk role jurisdiction
               is_final_pass total_clauses w in
  fst out = Raise e ->
  is_Exception e = false
  /\ retry_if_exception_type e = false
  /\ model (ncalls w) prompt = Fails e
  /\ snd out = w ++ [EvCall prompt].
Proof.
  intros prompt out. unfold out.
  rewrite process_chunk_is_body, process_chunk_body_cases. cbv zeta. fold prompt.
  destruct (model (ncalls w) prompt) as [e0|parts].
  - destruct (is_Exception e0) eqn:E; [discriminate|].
    simpl. intros H. inversion H; subst. repeat split; try assumption.
    now apply not_Exception_not_retried.
  - destruct (json_loads _) as [[|c cs]|]; discriminate.
Qed.

Lemma process_chunk_raises_only_non_exceptions_witness :
  is_Exception (Exn NonException "CancelledError") = false
  /\ retry_if_exception_type (Exn NonException "CancelledError") = false
  /\ cancelled_model (ncalls [])
       (build_prompt "client" "India" payment_chunk true 51)
     = Fails (Exn NonException "CancelledError")
  /\ snd (process_chunk cancelled_model loads_nothing payment_chunk
            "client" "India" true 51 [])
     = [] ++ [EvCall (build_prompt "client" "India" payment_chunk true 51)].
Proof.
  apply (process_chunk_raises_only_non_exceptions cancelled_model loads_nothing
           payment_chunk "client" "India" true 51 []
           (Exn NonException "CancelledError")).
  reflexivity.
Defined.

(** ** Cleaning the response (line 55) *)

Lemma lstrip_no_leading_space s : starts_with_space (lstrip s) = false.
Proof.
  induction s as [|c s IH]; simpl; [reflexivity|].
  destruct (isspace c) eqn:E; [exact IH|]. simpl. exact E.
Qed.

Lemma rstrip_keeps_head s :
  starts_with_space s = false -> starts_with_space (rstrip s) = false.
Proof.
  destruct s as [|c s]; simpl; [reflexivity|]. intro H.
  destruct (rstrip s); [rewrite H|]; simpl; auto.
Qed.

Lemma rstrip_no_trailing_space s : ends_with_space (rstrip s) = false.
Proof.
  induction s as [|c s IH]; simpl; [reflexivity|].
  destruct (rstrip s) as [|d r] eqn:R.
  - destruct (isspace c) eqn:E; simpl; [reflexivity|exact E].
  - simpl. simpl in IH. exact IH.
Qed.

Lemma lstrip_fixed s : starts_with_space s = false -> lstrip s = s.
Proof. destruct s as [|c s]; simpl; [reflexivity|]. now intros ->. Qed.

Lemma rstrip_fixed s : ends_with_space s = false -> rstrip s = s.
Proof.
  induction s as [|c s IH]; [reflexivity|].
  destruct s as [|d s].
  - simpl. now intros ->.
  - intro H. change (ends_with_space (String c (String d s)))
      with (ends_with_space (String d s)) in H.
    change (rstrip (String c (String d s)))
      with (match rstrip (String d s) with
            | EmptyString => if isspace c then EmptyString else String c EmptyString
            | r => String c r
            end).
    rewrite (IH H). reflexivity.
Qed.

(** The cleaned response neither begins nor ends with a whitespace
    character, and cleaning it again by [strip] changes nothing. *)
Theorem clean_response_is_stripped (full_response : string) :
  starts_with_space (clean_response full_response) = false
  /\ ends_with_space (clean_response full_response) = false
  /\ strip (clean_response full_response) = clean_response full_response.
Proof.
  unfold clean_response.
  set (t := re_sub_scan 0 full_response).
  assert (A : starts_with_space (strip t) = false).
  { unfold strip. apply rstrip_keeps_head, lstrip_no_leading_space. }
  assert (B : ends_with_space (strip t) = false).
  { unfold strip. apply rstrip_no_trailing_space. }
  repeat split; try assumption.
  unfold strip at 1. rewrite (lstrip_fixed _ A). now apply rstrip_fixed.
Qed.

Lemma re_sub_scan_length skip s :
  String.length (re_sub_scan skip s) <= String.length s.
Proof.
  revert skip. induction s as [|c s IH]; intro skip; [simpl; lia|].
  cbn [re_sub_scan String.length].
  destruct skip as [|k].
  - destruct (String.prefix _ _); [specialize (IH 7); lia|].
    destruct (String.prefix _ _); [specialize (IH 2); lia|].
    destruct (is_newline c).
    + destruct (blank_run s) as [k|]; [specialize (IH k); lia|].
      cbn [String.length]. specialize (IH 0). lia.
    + cbn [String.length]. specialize (IH 0). lia.
  - specialize (IH k). lia.
Qed.

Lemma lstrip_length s : String.length (lstrip s) <= String.length s.
Proof.
  induction s as [|c s IH]; simpl; [lia|].
  destruct (isspace c); simpl; lia.
Qed.

Lemma rstrip_length s : String.length (rstrip s) <= String.length s.
Proof.
  induction s as [|c s IH]; simpl; [lia|].
  destruct (rstrip s); [destruct (isspace c)|]; simpl in *; lia.
Qed.

(** Cleaning only removes characters: the cleaned response is never
    longer than the raw one. *)
Theorem clean_response_never_longer (full_response : string) :
  String.length (clean_response full_response) <= String.length full_response.
Proof.
  unfold clean_response, strip.
  pose proof (rstrip_length (lstrip (re_sub_scan 0 full_response))).
  pose proof (lstrip_length (re_sub_scan 0 full_response)).
  pose proof (re_sub_scan_length 0 full_response). lia.
Qed.

Lemma string_app_nil_r (s : string) : (s ++ "")%string = s.
Proof. induction s as [|c s IH]; simpl; [reflexivity|now rewrite IH]. Qed.

Lemma prefix_mismatch c p t u :
  Ascii.eqb c p = false -> String.prefix (String p t) (String c u) = false.
Proof.
  intro H. simpl. destruct (ascii_dec p c) as [->|_]; [|reflexivity].
  now rewrite Ascii.eqb_refl in H.
Qed.

Lemma re_sub_scan_plain_char c rest :
  plain_char c = true ->
  re_sub_scan 0 (String c rest) = String c (re_sub_scan 0 rest).
Proof.
  intro Hc. unfold plain_char in Hc. apply andb_true_iff in Hc.
  destruct Hc as [Hn Hb]. apply negb_true_iff in Hn. apply negb_true_iff in Hb.
  assert (P1 : String.prefix ("```json" ++ nl) (String c rest) = false)
    by (apply (prefix_mismatch c "`"%char ("``json" ++ nl)%string rest Hb)).
  assert (P2 : String.prefix "```" (String c rest) = false)
    by (apply (prefix_mismatch c "`"%char "``"%string rest Hb)).
  change (re_sub_scan 0 (String c rest))
    with (if String.prefix ("```json" ++ nl) (String c rest) then re_sub_scan 7 rest
          else if String.prefix "```" (String c rest) then re_sub_scan 2 rest
          else if is_newline c then
            match blank_run rest with
            | Some k => re_sub_scan k rest
            | None => String c (re_sub_scan 0 rest)
            end
          else String c (re_sub_scan 0 rest)).
  rewrite P1, P2, Hn. reflexivity.
Qed.

(** Text without newline or backtick passes the substitution unchanged. *)
Lemma re_sub_scan_plain s t :
  all_chars plain_char s = true ->
  re_sub_scan 0 (s ++ t) = (s ++ re_sub_scan 0 t)%string.
Proof.
  induction s as [|c s IH]; [reflexivity|].
  cbn [all_chars]. intro H. apply andb_true_iff in H. destruct H as [Hc Hs].
  change ((String c s ++ t)%string) with (String c (s ++ t)%string).
  rewrite (re_sub_scan_plain_char _ _ Hc), (IH Hs). reflexivity.
Qed.

Lemma rstrip_newline s : rstrip (s ++ nl) = rstrip s.
Proof.
  induction s as [|c s IH]; [reflexivity|].
  change ((String c s ++ nl)%string) with (String c (s ++ nl)%string).
  cbn [rstrip]. now rewrite IH.
Qed.

Lemma strip_newline s : strip (s ++ nl) = strip s.
Proof.
  unfold strip. induction s as [|c s IH]; [reflexivity|].
  change ((String c s ++ nl)%string) with (String c (s ++ nl)%string).
  cbn [lstrip]. destruct (isspace c); [exact IH|].
  change (String c (s ++ nl)%string) with ((String c s ++ nl)%string).
  apply rstrip_newline.
Qed.

Lemma all_chars_app P (a b : string) :
  all_chars P (a ++ b) = all_chars P a && all_chars P b.
Proof.
  induction a as [|c a IH]; [reflexivity|].
  change ((String c a ++ b)%string) with (String c (a ++ b)%string).
  cbn [all_chars]. now rewrite IH, andb_assoc.
Qed.

Lemma all_chars_weaken (P Q : ascii -> bool) s :
  (forall c, P c = true -> Q c = true) ->
  all_chars P s = true -> all_chars Q s = true.
Proof.
  intro PQ. induction s as [|c s IH]; [reflexivity|].
  cbn [all_chars]. rewrite !andb_true_iff. intros [Hc Hs]. auto.
Qed.

(** The characters of a prefix are characters of the whole. *)
Lemma prefix_all_chars P p u :
  String.prefix p u = true -> all_chars P u = true -> all_chars P p = true.
Proof.
  revert u. induction p as [|a p IH]; intros u; [reflexivity|].
  destruct u as [|b u]; [discriminate|]. simpl.
  destruct (ascii_dec a b) as [->|_]; [|discriminate].
  rewrite !andb_true_iff. intros Hp [Hb Hu]. split; [exact Hb|]. eapply IH; eassumption.
Qed.

Lemma prefix_nil u : String.prefix "" u = true.
Proof. destruct u; reflexivity. Qed.

Lemma prefix_app p u : String.prefix p (p ++ u) = true.
Proof.
  induction p as [|a p IH]; [apply prefix_nil|]. simpl.
  destruct (ascii_dec a a) as [_|N]; [exact IH|now contradiction N].
Qed.

Lemma re_sub_scan_unfold c rest :
  re_sub_scan 0 (String c rest)
  = if String.prefix ("```json" ++ nl) (String c rest) then re_sub_scan 7 rest
    else if String.prefix "```" (String c rest) then re_sub_scan 2 rest
    else if is_newline c then
      match blank_run rest with
      | Some k => re_sub_scan k rest
      | None => String c (re_sub_scan 0 rest)
      end
    else String c (re_sub_scan 0 rest).
Proof. reflexivity. Qed.

(** A plain opening fence is removed where no json fence stands. *)
Lemma re_sub_scan_fence t :
  String.prefix ("```json" ++ nl) ("```" ++ t) = false ->
  re_sub_scan 0 ("```" ++ t) = re_sub_scan 0 t.
Proof.
  intro H.
  change ("```" ++ t)%string with (String "`"%char ("``" ++ t)) in *.
  rewrite re_sub_scan_unfold, H.
  change (String "`"%char ("``" ++ t)) with ("```" ++ t)%string.
  rewrite prefix_app. reflexivity.
Qed.

(** A json fence followed by a newline is removed. *)
Lemma re_sub_scan_json_fence t :
  re_sub_scan 0 ("```json" ++ nl ++ t) = re_sub_scan 0 t.
Proof.
  change ("```json" ++ nl ++ t)%string
    with (String "`"%char ("``json" ++ nl ++ t)).
  rewrite re_sub_scan_unfold.
  change (String "`"%char ("``json" ++ nl ++ t))
    with (("```json" ++ nl) ++ t)%string.
  rewrite prefix_app. reflexivity.
Qed.

(** Unwrapping: a text without newline or backtick comes out of the
    cleaning stripped and otherwise unchanged, whether it is bare, between
    plain fences or between a json fence and a closing fence on lines of
    their own. *)
Theorem clean_response_unwraps_fences (s : string) :
  all_chars plain_char s = true ->
  clean_response s = strip s
  /\ clean_response ("```" ++ s ++ "```") = strip s
  /\ clean_response ("```json" ++ nl ++ s ++ nl ++ "```") = strip s.
Proof.
  intro H. unfold clean_response. repeat split.
  - rewrite <- (string_app_nil_r s) at 1.
    rewrite (re_sub_scan_plain s "" H). simpl. now rewrite string_app_nil_r.
  - rewrite re_sub_scan_fence.
    + rewrite (re_sub_scan_plain s _ H). simpl. now rewrite string_app_nil_r.
    + destruct (String.prefix ("```json" ++ nl) ("```" ++ s ++ "```")) eqn:E;
        [|reflexivity].
      apply (prefix_all_chars (fun c => negb (is_newline c))) in E; [discriminate E|].
      change ("```" ++ s ++ "```")%string with ("```" ++ (s ++ "```"))%string.
      rewrite !all_chars_app, andb_true_iff. split; [reflexivity|].
      apply andb_true_iff. split; [|reflexivity].
      eapply all_chars_weaken; [|exact H].
      intros c Hc. unfold plain_char in Hc. apply andb_true_iff in Hc. tauto.
  - rewrite re_sub_scan_json_fence.
    rewrite (re_sub_scan_plain s _ H).
    change (re_sub_scan 0 (nl ++ "```")) with nl.
    apply strip_newline.
Qed.

Lemma clean_response_unwraps_fences_witness :
  clean_response (json_list [payment_clause]) = strip (json_list [payment_clause])
  /\ clean_response ("```" ++ json_list [payment_clause] ++ "```")
     = strip (json_list [payment_clause])
  /\ clean_response ("```json" ++ nl ++ json_list [payment_clause] ++ nl ++ "```")
     = strip (json_list [payment_clause]).
Proof.
  apply (clean_response_unwraps_fences (json_list [payment_clause])).
  vm_compute. reflexivity.
Defined.

(** ** The lines of the output file *)

Lemma escape_char_safe (ensure_ascii : bool) (c : ascii) :
  all_chars not_control (escape_char ensure_ascii c) = true
  /\ all_chars printable_ascii (escape_char true c) = true.
Proof.
  destruct c as [[] [] [] [] [] [] [] []]; destruct ensure_ascii;
    split; vm_compute; reflexivity.
Qed.

Lemma escape_safe (ensure_ascii : bool) (s : string) :
  all_chars not_control (escape ensure_ascii s) = true
  /\ all_chars printable_ascii (escape true s) = true.
Proof.
  induction s as [|c s [IH1 IH2]]; [split; reflexivity|].
  cbn [escape]. rewrite !all_chars_app, IH1, IH2.
  destruct (escape_char_safe ensure_ascii c) as [-> ->]. split; reflexivity.
Qed.

Lemma concat_all_chars P sep (l : list string) :
  all_chars P sep = true ->
  Forall (fun s => all_chars P s = true) l ->
  all_chars P (String.concat sep l) = true.
Proof.
  intros Hs F. induction F as [|x l Hx F IH]; [reflexivity|].
  destruct l as [|y l]; [exact Hx|].
  change (String.concat sep (x :: y :: l))
    with (x ++ sep ++ String.concat sep (y :: l))%string.
  now rewrite !all_chars_app, Hx, Hs, IH.
Qed.

Lemma json_dumps_safe (ensure_ascii : bool) (d : record) :
  all_chars not_control (json_dumps ensure_ascii d) = true
  /\ all_chars printable_ascii (json_dumps true d) = true.
Proof.
  unfold json_dumps. split.
  - rewrite !all_chars_app. apply andb_true_iff. split; [reflexivity|].
    apply andb_true_iff. split; [|reflexivity].
    apply concat_all_chars; [reflexivity|].
    apply Forall_map, Forall_forall. intros kv _. unfold dump_field, quoted.
    rewrite !all_chars_app.
    destruct (escape_safe ensure_ascii (fst kv)) as [-> _].
    destruct (escape_safe ensure_ascii (snd kv)) as [-> _]. reflexivity.
  - rewrite !all_chars_app. apply andb_true_iff. split; [reflexivity|].
    apply andb_true_iff. split; [|reflexivity].
    apply concat_all_chars; [reflexivity|].
    apply Forall_map, Forall_forall. intros kv _. unfold dump_field, quoted.
    rewrite !all_chars_app.
    destruct (escape_safe true (fst kv)) as [_ ->].
    destruct (escape_safe true (snd kv)) as [_ ->]. reflexivity.
Qed.

Lemma no_control_no_newline (s : string) :
  all_chars not_control s = true -> count_char "010"%char s = 0.
Proof.
  induction s as [|c s IH]; [reflexivity|].
  cbn [all_chars count_char]. rewrite andb_true_iff. intros [Hc Hs].
  rewrite (IH Hs).
  destruct (Ascii.eqb_spec c "010"%char) as [->|_]; [discriminate Hc|reflexivity].
Qed.

(** A record is written on one line: whatever its keys and values hold,
    the text [json.dumps] gives has no control character, so no newline;
    and with [ensure_ascii] (the error records) it is printable ASCII
    throughout. *)
Theorem json_dumps_is_one_line (ensure_ascii : bool) (d : record) :
  all_chars not_control (json_dumps ensure_ascii d) = true
  /\ count_char "010"%char (json_dumps ensure_ascii d) = 0
  /\ all_chars printable_ascii (json_dumps true d) = true.
Proof.
  destruct (json_dumps_safe ensure_ascii d) as [A B].
  split; [exact A|]. split; [|exact B]. now apply no_control_no_newline.
Qed.

Lemma count_char_app c (a b : string) :
  count_char c (a ++ b) = count_char c a + count_char c b.
Proof.
  induction a as [|x a IH]; [reflexivity|].
  change ((String x a ++ b)%string) with (String x (a ++ b)%string).
  cbn [count_char]. rewrite IH. lia.
Qed.

(** The output file has exactly one line per appended record: the number
    of newline characters of its text is the number of records written
    since the last truncation. *)
Theorem file_text_has_one_line_per_record (w : world) :
  count_char "010"%char (file_text w) = List.length (file_of w).
Proof.
  unfold file_text. induction (file_of w) as [|l ls IH]; [reflexivity|].
  cbn [map List.length].
  assert (E : forall x xs, String.concat "" (x :: xs) = (x ++ String.concat "" xs)%string).
  { intros x [|y xs]; [simpl; now rewrite string_app_nil_r|reflexivity]. }
  rewrite E, !count_char_app, IH.
  destruct (json_dumps_safe (fst l) (snd l)) as [A _].
  rewrite (no_control_no_newline _ A). reflexivity.
Qed.

(** ** The sort of line 111 *)

Lemma insert_keyed_filter k x l :
  filter (fun kr : string * record => String.eqb (fst kr) k) (insert_keyed x l)
  = filter (fun kr : string * record => String.eqb (fst kr) k) (x :: l).
Proof.
  induction l as [|y l IH]; [reflexivity|].
  cbn [insert_keyed]. destruct (fst x <=? fst y)%string eqn:L; [reflexivity|].
  cbn [filter] in *. rewrite IH.
  destruct (String.eqb_spec (fst x) k) as [Ex|_]; [|reflexivity].
  destruct (String.eqb_spec (fst y) k) as [Ey|_]; [|reflexivity].
  rewrite Ex, <- Ey, string_leb_refl in L. discriminate L.
Qed.

Lemma sort_keyed_filter k l :
  filter (fun kr : string * record => String.eqb (fst kr) k) (sort_keyed l)
  = filter (fun kr : string * record => String.eqb (fst kr) k) l.
Proof.
  induction l as [|x l IH]; [reflexivity|].
  cbn [sort_keyed fold_right]. fold (sort_keyed l).
  rewrite insert_keyed_filter. cbn [filter]. now rewrite IH.
Qed.

Lemma filter_keyed k ks :
  Forall (fun kr => get "clause_number" (snd kr) = Some (fst kr)) ks ->
  filter (number_is k) (map snd ks)
  = map snd (filter (fun kr : string * record => String.eqb (fst kr) k) ks).
Proof.
  induction 1 as [|kr ks H _ IH]; [reflexivity|].
  cbn [map filter]. unfold number_is at 1. rewrite H. cbn [option_string_eqb].
  destruct (String.eqb (fst kr) k); cbn [map]; now rewrite IH.
Qed.

(** [sorted] as the code uses it is a stable sort on the clause numbers
    compared as strings: its result is a rearrangement of the candidates,
    in ascending order, and candidates with the same number keep the order
    in which the second pass met them. *)
Theorem sorted_is_a_stable_sort (candidates in_order : list record) :
  sorted_by_clause_number candidates = Some in_order ->
  Permutation in_order candidates
  /\ StronglySorted number_le in_order
  /\ forall k, filter (number_is k) in_order = filter (number_is k) candidates.
Proof.
  intro H. destruct (sorted_by_clause_number_spec _ _ H) as [P S].
  split; [exact P|]. split; [exact S|]. intro k.
  unfold sorted_by_clause_number in H.
  destruct (clause_number_keys candidates) as [ks|] eqn:K; [|discriminate].
  simpl in H. injection H as <-.
  destruct (clause_number_keys_spec _ _ K) as [M F].
  rewrite <- M, !filter_keyed, sort_keyed_filter; [reflexivity|exact F|].
  eapply Permutation_Forall; [apply Permutation_sym, sort_keyed_perm|exact F].
Qed.

Lemma sorted_is_a_stable_sort_witness :
  sorted_by_clause_number tied_clauses
  = Some [ clause "10" "Tenth clause" "very high" "NIL";
           clause "2" "Second clause, first part" "very high" "NIL";
           clause "2" "Second clause, second part" "very high" "NIL" ]
  /\ filter (number_is "2")
       [ clause "10" "Tenth clause" "very high" "NIL";
         clause "2" "Second clause, first part" "very high" "NIL";
         clause "2" "Second clause, second part" "very high" "NIL" ]
     = filter (number_is "2") tied_clauses.
Proof.
  split; [reflexivity|].
  apply (sorted_is_a_stable_sort tied_clauses
           [ clause "10" "Tenth clause" "very high" "NIL";
             clause "2" "Second clause, first part" "very high" "NIL";
             clause "2" "Second clause, second part" "very high" "NIL" ]).
  reflexivity.
Defined.

Lemma sort_fails_iff_a_number_is_missing_helper (candidates : list record) :
  (exists c, In c candidates /\ get "clause_number" c = None) ->
  sorted_by_clause_number candidates = None.
Proof.
  intros [c [Hc N]]. unfold sorted_by_clause_number.
  assert (K : clause_number_keys candidates = None).
  { induction candidates as [|x l IH]; [contradiction|]. simpl.
    destruct Hc as [<-|Hc]; [now rewrite N|].
    rewrite (IH Hc). now destruct (get "clause_number" x). }
  now rewrite K.
Qed.

(** A candidate without [clause_number] makes the sort fail (the
    [KeyError] of the key function), wherever it stands among the
    candidates and whatever the others hold; so a sort that succeeds means
    that every candidate carries a clause number. *)
Theorem missing_number_fails_the_sort (candidates : list record) (c : record) :
  In c candidates ->
  get "clause_number" c = None ->
  sorted_by_clause_number candidates = None
  /\ forall before after,
       sorted_by_clause_number (before ++ candidates ++ after) = None.
Proof.
  intros Hc N. split.
  - apply sort_fails_iff_a_number_is_missing_helper. now exists c.
  - intros before after. apply sort_fails_iff_a_number_is_missing_helper.
    exists c. split; [|exact N].
    apply in_or_app. right. apply in_or_app. now left.
Qed.

Lemma missing_number_fails_the_sort_witness :
  sorted_by_clause_number (tied_clauses ++ [unnumbered_record]) = None
  /\ forall before after,
       sorted_by_clause_number
         (before ++ (tied_clauses ++ [unnumbered_record]) ++ after) = None.
Proof.
  apply (missing_number_fails_the_sort (tied_clauses ++ [unnumbered_record])
           unnumbered_record).
  - apply in_or_app. right. now left.
  - reflexivity.
Defined.

(** ** The merge of lines 112-115 *)

Lemma filter_filter_and {A} (f g : A -> bool) l :
  filter f (filter g l) = filter (fun x => g x && f x) l.
Proof.
  induction l as [|x l IH]; [reflexivity|]. simpl.
  destruct (g x); simpl; [destruct (f x)|]; now rewrite IH.
Qed.

Lemma forallb_pointwise {A} (f g : A -> bool) l :
  (forall x, f x = g x) -> forallb f l = forallb g l.
Proof.
  intro E. induction l as [|x l IH]; [reflexivity|]. simpl. now rewrite E, IH.
Qed.

Lemma filter_none {A} (f : A -> bool) l :
  forallb (fun x => negb (f x)) l = true -> filter f l = [].
Proof.
  induction l as [|x l IH]; [reflexivity|]. simpl.
  rewrite andb_true_iff, negb_true_iff. intros [-> H]. now apply IH.
Qed.

Lemma filter_all {A} (f : A -> bool) l :
  forallb f l = true -> filter f l = l.
Proof.
  induction l as [|x l IH]; [reflexivity|]. simpl.
  rewrite andb_true_iff. intros [-> H]. now rewrite IH.
Qed.

(** The merged sequence keeps every first-pass record that is not
    very-high, in order.  When the selected records are very-high and no
    very-high record of the first pass equals one of them, the very-high
    records of the merged sequence are exactly the selected ones. *)
Theorem merged_sequence_by_risk (all_clauses very_high_clauses : list record) :
  forallb is_very_high very_high_clauses = true ->
  let merged := other_clauses all_clauses very_high_clauses ++ very_high_clauses in
  filter (fun c => negb (is_very_high c)) merged
  = filter (fun c => negb (is_very_high c)) all_clauses
  /\ (forallb (fun c => negb (is_very_high c && record_in c very_high_clauses))
        all_clauses = true ->
      filter is_very_high merged = very_high_clauses).
Proof.
  intros V merged. unfold merged, other_clauses. rewrite !filter_app. split.
  - rewrite (filter_none (fun c => negb (is_very_high c)) very_high_clauses).
    + rewrite app_nil_r, filter_filter_and. apply filter_ext. intro c.
      destruct (is_very_high c); simpl; [now rewrite andb_false_r|reflexivity].
    + rewrite <- V. apply forallb_pointwise. intro c. now rewrite negb_involutive.
  - intro N. rewrite (filter_all _ _ V), filter_filter_and.
    rewrite filter_none; [reflexivity|].
    rewrite <- N. apply forallb_pointwise. intro c.
    destruct (is_very_high c); simpl; [now rewrite andb_true_r|reflexivity].
Qed.

Lemma merged_sequence_by_risk_witness :
  let merged := other_clauses (fifty_one "NIL") (selected_of "Cap the liability")
                ++ selected_of "Cap the liability" in
  filter (fun c => negb (is_very_high c)) merged
  = filter (fun c => negb (is_very_high c)) (fifty_one "NIL")
  /\ filter is_very_high merged = selected_of "Cap the liability".
Proof.
  destruct (merged_sequence_by_risk (fifty_one "NIL") (selected_of "Cap the liability"))
    as [A B].
  - vm_compute. reflexivity.
  - split; [exact A|]. apply B. vm_compute. reflexivity.
Defined.

(** ** The passes *)

Lemma file_from_no_truncation f evs :
  truncations evs = 0 -> file_from f evs = f ++ appended evs.
Proof.
  revert f. induction evs as [|e evs IH]; intros f T; simpl.
  - now rewrite app_nil_r.
  - destruct e as [|a r|p|n]; simpl in T; [discriminate T| | |].
    + unfold file_from in *. simpl. rewrite (IH _ T), <- app_assoc. reflexivity.
    + now apply IH.
    + now apply IH.
Qed.

Section PassTraces.

Variable model : nat -> string -> response.
Variable json_loads : string -> option (list record).

Lemma process_chunk_raises chunk role jurisdiction fp total w e w' :
  process_chunk model json_loads chunk role jurisdiction fp total w = (Raise e, w') ->
  is_Exception e = false.
Proof.
  rewrite process_chunk_is_body. apply process_chunk_body_raises.
Qed.

Lemma first_pass_raises chunks role jurisdiction acc w e w' :
  first_pass model json_loads chunks role jurisdiction acc w = (Raise e, w') ->
  is_Exception e = false.
Proof.
  revert acc w. induction chunks as [|chunk rest IH]; intros acc w; simpl.
  - discriminate.
  - unfold bind.
    destruct (process_chunk model json_loads chunk role jurisdiction false 0 w)
      as [[cl|e1] w1] eqn:E.
    + apply IH.
    + intros H. inversion H; subst. eapply process_chunk_raises, E.
Qed.

Lemma second_pass_raises chunks role jurisdiction total acc w e w' :
  second_pass model json_loads chunks role jurisdiction total acc w = (Raise e, w') ->
  is_Exception e = false.
Proof.
  revert acc w. induction chunks as [|chunk rest IH]; intros acc w; simpl.
  - discriminate.
  - unfold bind.
    destruct (process_chunk model json_loads chunk role jurisdiction true total w)
      as [[cl|e1] w1] eqn:E.
    + apply IH.
    + intros H. inversion H; subst. eapply process_chunk_raises, E.
Qed.

(** The first pass: at most one invocation and at most one line per
    chunk, every line the "No clauses found in chunk" record. *)
Lemma first_pass_trace chunks role jurisdiction acc w :
  exists evs,
    snd (first_pass model json_loads chunks role jurisdiction acc w) = w ++ evs
    /\ truncations evs = 0
    /\ List.length (prompts_of evs) <= List.length chunks
    /\ List.length (appended evs) <= List.length chunks
    /\ Forall (fun l => l = (true, no_clauses_record)) (appended evs).
Proof.
  revert acc w. induction chunks as [|chunk rest IH]; intros acc w; simpl.
  - exists []. rewrite app_nil_r. repeat split; simpl; auto.
  - unfold bind.
    destruct (first_chunk_step model json_loads chunk role jurisdiction 0 w)
      as [res [evs1 [E H]]].
    rewrite E. destruct res as [cl|e].
    + destruct (IH (acc ++ cl)
                  (w ++ EvCall (build_prompt role jurisdiction chunk false 0) :: evs1))
        as [evs2 [-> [T [P [A F]]]]].
      exists (EvCall (build_prompt role jurisdiction chunk false 0) :: evs1 ++ evs2).
      split; [now rewrite <- app_assoc|].
      destruct H as [-> | [-> _]]; simpl; repeat split; auto; try lia.
    + exists (EvCall (build_prompt role jurisdiction chunk false 0) :: evs1).
      split; [reflexivity|].
      destruct H as [-> | [-> H]]; [|discriminate H].
      simpl. repeat split; auto; lia.
Qed.

(** The second pass: at most one invocation per chunk, no truncation, and
    every candidate it returns has been appended to the file as a line. *)
Lemma second_pass_trace chunks role jurisdiction total acc w :
  exists evs,
    snd (second_pass model json_loads chunks role jurisdiction total acc w) = w ++ evs
    /\ Forall (pass_event true (fun _ => True)) evs
    /\ List.length (prompts_of evs) <= List.length chunks
    /\ forall candidates,
         fst (second_pass model json_loads chunks role jurisdiction total acc w)
         = Ok candidates ->
         forall c, In c candidates -> In c acc \/ In (false, c) (appended evs).
Proof.
  revert acc w. induction chunks as [|chunk rest IH]; intros acc w; simpl.
  - exists []. rewrite app_nil_r. repeat split; simpl; auto.
    intros cands H. inversion H; subst. auto.
  - unfold bind.
    destruct (final_chunk_step model json_loads chunk role jurisdiction total w)
      as [res [evs1 [E [F S]]]].
    rewrite E. destruct res as [cl|e].
    + destruct (IH (acc ++ filter is_very_high cl)
                  (w ++ EvCall (build_prompt role jurisdiction chunk true total) :: evs1))
        as [evs2 [E2 [F2 [P2 C2]]]].
      exists (EvCall (build_prompt role jurisdiction chunk true total) :: evs1 ++ evs2).
      split; [rewrite E2; now rewrite <- app_assoc|]. split.
      { constructor; [exact I|]. apply Forall_app. split; [|exact F2].
        eapply pass_event_weaken; [|exact F]. contradiction. }
      split.
      { simpl. rewrite prompts_of_app, (appends_no_prompts _ _ F). simpl. lia. }
      intros cands H c Hc. destruct (C2 cands H c Hc) as [Ha|Ha].
      * apply in_app_or in Ha. destruct Ha as [Ha|Ha]; [now left|right].
        apply filter_In in Ha. destruct Ha as [Ha _].
        simpl. rewrite appended_app. apply in_or_app. left.
        destruct (S cl eq_refl) as [N _]. rewrite N.
        -- now apply in_map.
        -- intro Z. subst cl. contradiction.
      * right. simpl. rewrite appended_app. apply in_or_app. now right.
    + exists (EvCall (build_prompt role jurisdiction chunk true total) :: evs1).
      split; [reflexivity|]. split.
      { constructor; [exact I|]. eapply pass_event_weaken; [|exact F]. contradiction. }
      split; [simpl; rewrite (appends_no_prompts _ _ F); simpl; lia|].
      simpl. discriminate.
Qed.

End PassTraces.

(** Whatever the model answers, the first pass writes no clause: it leaves
    in the file at most one line per chunk, each the "No clauses found in
    chunk" record, and never truncates. *)
Theorem first_pass_leaves_only_empty_notices
    (model : nat -> string -> response) (json_loads : string -> option (list record))
    (chunks : list string) (role jurisdiction : string) (acc : list record)
    (w : world) :
  let w' := snd (first_pass model json_loads chunks role jurisdiction acc w) in
  exists notices,
    file_of w' = file_of w ++ notices
    /\ Forall (fun l => l = (true, no_clauses_record)) notices
    /\ List.length notices <= List.length chunks
    /\ truncations w' = truncations w.
Proof.
  intro w'. unfold w'.
  destruct (first_pass_trace model json_loads chunks role jurisdiction acc w)
    as [evs [-> [T [_ [A F]]]]].
  exists (appended evs). repeat split; try assumption.
  - unfold file_of. rewrite file_from_app. now apply file_from_no_truncation.
  - rewrite truncations_app, T. lia.
Qed.

(** ** The run as a whole *)

(** The shape of every run of the embedding: it starts by truncating the
    file, truncates at most once more, invokes the model at most twice per
    chunk (and not at all without text), and lets through only the
    [KeyError] of the sort or an exception of the model that is not an
    [Exception]. *)
Lemma run_shape
    (model : nat -> string -> response) (json_loads : string -> option (list record))
    (extract_text : string -> option string) (chunk_text : string -> Z -> list string)
    (file_path role jurisdiction : string) (chunk_size : Z) (w0 : world) :
  let run := process_document model json_loads extract_text chunk_text
               file_path role jurisdiction chunk_size w0 in
  let chunks := match extract_text file_path with
                | None | Some EmptyString => []
                | Some text => chunk_text text chunk_size
                end in
  exists evs,
    snd run = w0 ++ EvTruncate :: evs
    /\ truncations evs <= 1
    /\ List.length (prompts_of evs) <= 2 * List.length chunks
    /\ forall e, fst run = Raise e ->
         e = Exn KeyError "'clause_number'" \/ is_Exception e = false.
Proof.
  intros run chunks.
  assert (NoText : extract_text file_path = None
                   \/ extract_text file_path = Some EmptyString ->
                   exists evs,
                     snd run = w0 ++ EvTruncate :: evs
                     /\ truncations evs <= 1
                     /\ List.length (prompts_of evs) <= 2 * List.length chunks
                     /\ forall e, fst run = Raise e ->
                          e = Exn KeyError "'clause_number'" \/ is_Exception e = false).
  { intro H. exists [EvAppend true no_text_record].
    assert (R : run = (Ok [], w0 ++ [EvTruncate; EvAppend true no_text_record])).
    { unfold run, process_document, bind, truncate_file, append_line, emit, ret.
      destruct H as [-> | ->]; rewrite <- app_assoc; reflexivity. }
    rewrite R. simpl. repeat split; try lia. discriminate. }
  destruct (extract_text file_path) as [[|c t]|] eqn:Ex;
    [apply NoText; now right| |apply NoText; now left].
  clear NoText.
  assert (Hne : String c t <> EmptyString) by discriminate.
  pose proof (process_document_with_text model json_loads extract_text chunk_text
                file_path role jurisdiction (String c t) chunk_size Ex Hne w0) as R.
  cbv zeta in R. fold run in R. fold chunks in R.
  destruct (first_pass_trace model json_loads chunks role jurisdiction []
              (w0 ++ [EvTruncate])) as [evs1 [E1 [T1 [P1 _]]]].
  destruct (first_pass model json_loads chunks role jurisdiction []
              (w0 ++ [EvTruncate])) as [[all_clauses|e1] w1] eqn:F1;
    simpl in E1; subst w1.
  - destruct (50 <? Z.of_nat (List.length (filter no_error all_clauses)))%Z.
    + destruct (second_pass_trace model json_loads chunks role jurisdiction
                  (Z.of_nat (List.length (filter no_error all_clauses))) []
                  (((w0 ++ [EvTruncate]) ++ evs1) ++ [EvTruncate]))
        as [evs2 [E2 [Q2 [P2 _]]]].
      destruct (pass_events_quiet _ _ _ Q2) as [T2 _].
      destruct (second_pass model json_loads chunks role jurisdiction
                  (Z.of_nat (List.length (filter no_error all_clauses))) []
                  (((w0 ++ [EvTruncate]) ++ evs1) ++ [EvTruncate]))
        as [[cands|e2] w2] eqn:F2; simpl in E2; subst w2.
      * destruct (sorted_by_clause_number cands) as [in_order|].
        -- exists (evs1 ++ EvTruncate :: evs2
                   ++ map (EvAppend false)
                        (written (other_clauses all_clauses (firstn 50 in_order)
                                  ++ firstn 50 in_order))).
           rewrite R. simpl fst. simpl snd. split.
           { rewrite <- !app_assoc. reflexivity. }
           rewrite truncations_app, prompts_of_app. simpl.
           rewrite truncations_app, prompts_of_app, truncations_appends,
             prompts_of_appends, T1, T2, app_nil_r, length_app.
           repeat split; try lia. discriminate.
        -- exists (evs1 ++ EvTruncate :: evs2).
           rewrite R. simpl fst. simpl snd. split.
           { rewrite <- !app_assoc. reflexivity. }
           rewrite truncations_app, prompts_of_app. simpl.
           rewrite T1, T2, length_app.
           repeat split; try lia. intros e H. left. now inversion H.
      * exists (evs1 ++ EvTruncate :: evs2).
        rewrite R. simpl fst. simpl snd. split.
        { rewrite <- !app_assoc. reflexivity. }
        rewrite truncations_app, prompts_of_app. simpl.
        rewrite T1, T2, length_app.
        repeat split; try lia. intros e H. right. inversion H; subst.
        eapply second_pass_raises, F2.
    + exists (evs1 ++ map (EvAppend false) (written all_clauses)).
      rewrite R. simpl fst. simpl snd. split.
      { rewrite <- !app_assoc. reflexivity. }
      rewrite truncations_app, prompts_of_app, truncations_appends,
        prompts_of_appends, T1, app_nil_r.
      repeat split; try lia. discriminate.
  - exists evs1. rewrite R. simpl fst. simpl snd. split.
    { rewrite <- !app_assoc. reflexivity. }
    rewrite T1. repeat split; try lia. intros e H. right. inversion H; subst.
    eapply first_pass_raises, F1.
Qed.

(** Every run starts from an empty file: whatever the log held before,
    the final file consists of lines written during this run, and the run
    truncates the file at most twice. *)
Theorem run_starts_from_an_empty_file
    (model : nat -> string -> response) (json_loads : string -> option (list record))
    (extract_text : string -> option string) (chunk_text : string -> Z -> list string)
    (file_path role jurisdiction : string) (chunk_size : Z) (w0 : world) :
  let run := process_document model json_loads extract_text chunk_text
               file_path role jurisdiction chunk_size w0 in
  exists evs,
    snd run = w0 ++ EvTruncate :: evs
    /\ file_of (snd run) = file_from [] evs
    /\ truncations (snd run) <= truncations w0 + 2.
Proof.
  intro run.
  destruct (run_shape model json_loads extract_text chunk_text file_path role
              jurisdiction chunk_size w0) as [evs [E [T _]]].
  fold run in E. exists evs. split; [exact E|]. rewrite E. split.
  - apply file_of_after_truncate.
  - rewrite truncations_app. simpl. lia.
Qed.

(** A run invokes the model at most twice per chunk, and not at all when
    no text is extracted (nothing, or the empty string), whether it
    completes or raises. *)
Theorem run_invokes_model_at_most_twice_per_chunk
    (model : nat -> string -> response) (json_loads : string -> option (list record))
    (extract_text : string -> option string) (chunk_text : string -> Z -> list string)
    (file_path role jurisdiction : string) (chunk_size : Z) (w0 : world) :
  let run := process_document model json_loads extract_text chunk_text
               file_path role jurisdiction chunk_size w0 in
  ncalls (snd run)
  <= ncalls w0
     + 2 * match extract_text file_path with
           | None | Some EmptyString => 0
           | Some text => List.length (chunk_text text chunk_size)
           end.
Proof.
  intro run.
  destruct (run_shape model json_loads extract_text chunk_text file_path role
              jurisdiction chunk_size w0) as [evs [E [_ [P _]]]].
  fold run in E. rewrite E. unfold ncalls. rewrite prompts_of_app, length_app.
  simpl. destruct (extract_text file_path) as [[|c t]|]; simpl in *; lia.
Qed.

(** A transient failure of the model never reaches the caller of
    [process_document]: whatever exception a run raises, it is no
    [ResourceExhausted], no [ServiceUnavailable] and no [RetryError] of the
    decorator. *)
Theorem transient_failures_never_reach_the_caller
    (model : nat -> string -> response) (json_loads : string -> option (list record))
    (extract_text : string -> option string) (chunk_text : string -> Z -> list string)
    (file_path role jurisdiction : string) (chunk_size : Z) (w0 : world) (e : exn) :
  fst (process_document model json_loads extract_text chunk_text
         file_path role jurisdiction chunk_size w0) = Raise e ->
  exn_class_of e <> ResourceExhausted
  /\ exn_class_of e <> ServiceUnavailable
  /\ exn_class_of e <> RetryError.
Proof.
  intro H.
  destruct (run_shape model json_loads extract_text chunk_text file_path role
              jurisdiction chunk_size w0) as [evs [_ [_ [_ X]]]].
  specialize (X e H).
  destruct X as [-> | X]; [repeat split; discriminate|].
  unfold is_Exception in X.
  destruct (exn_class_of e); try discriminate X; repeat split; discriminate.
Qed.

Lemma transient_failures_never_reach_the_caller_witness :
  fst unnumbered_run = Raise (Exn KeyError "'clause_number'")
  /\ KeyError <> ResourceExhausted
  /\ KeyError <> ServiceUnavailable
  /\ KeyError <> RetryError.
Proof.
  assert (R : fst unnumbered_run = Raise (Exn KeyError "'clause_number'"))
    by (vm_compute; reflexivity).
  split; [exact R|].
  exact (transient_failures_never_reach_the_caller unnumbered_model
           (loads_table unnumbered_table) some_text (fun _ _ => long_chunks)
           "contract.pdf" "client" "India" 1000 []
           (Exn KeyError "'clause_number'") R).
Defined.

(** A very-high record of the second pass without [clause_number] aborts
    the run with [KeyError] after the second pass: the closing write does
    not happen, so the file keeps only what the second pass appended and
    none of the first-pass records. *)
Theorem missing_clause_number_aborts_the_run
    (model : nat -> string -> response) (json_loads : string -> option (list record))
    (extract_text : string -> option string) (chunk_text : string -> Z -> list string)
    (file_path role jurisdiction text : string) (chunk_size : Z)
    (w0 : world) (all_clauses candidates : list record) (c : record) :
  extract_text file_path = Some text ->
  text <> EmptyString ->
  let chunks := chunk_text text chunk_size in
  let pass1 := first_pass model json_loads chunks role jurisdiction []
                 (w0 ++ [EvTruncate]) in
  fst pass1 = Ok all_clauses ->
  50 < List.length (filter no_error all_clauses) ->
  let pass2 := second_pass model json_loads chunks role jurisdiction
                 (Z.of_nat (List.length (filter no_error all_clauses))) []
                 (snd pass1 ++ [EvTruncate]) in
  fst pass2 = Ok candidates ->
  In c candidates ->
  get "clause_number" c = None ->
  process_document model json_loads extract_text chunk_text
    file_path role jurisdiction chunk_size w0
  = (Raise (Exn KeyError "'clause_number'"), snd pass2).
Proof.
  intros Ht Hne chunks pass1 P1 Hgt pass2 P2 Hc Hk.
  pose proof (process_document_with_text model json_loads extract_text chunk_text
                file_path role jurisdiction text chunk_size Ht Hne w0) as R.
  cbv zeta in R. fold chunks in R. fold pass1 in R.
  destruct pass1 as [res1 w1]. cbn [fst] in P1. subst res1. cbn [snd] in *.
  destruct (Z.ltb_spec 50 (Z.of_nat (List.length (filter no_error all_clauses))));
    [|lia].
  fold pass2 in R.
  destruct pass2 as [res2 w2]. cbn [fst] in P2. subst res2. cbn [snd].
  assert (S : sorted_by_clause_number candidates = None).
  { apply sort_fails_iff_a_number_is_missing_helper. now exists c. }
  rewrite S in R. exact R.
Qed.

Lemma missing_clause_number_aborts_the_run_witness :
  unnumbered_run
  = (Raise (Exn KeyError "'clause_number'"),
     snd (second_pass unnumbered_model (loads_table unnumbered_table) long_chunks
            "client" "India" 51 []
            (snd (first_pass unnumbered_model (loads_table unnumbered_table)
                    long_chunks "client" "India" [] [EvTruncate])
             ++ [EvTruncate])))
  /\ file_records (snd unnumbered_run) = [unnumbered_record; [("error", "Processing error: 500 Internal error"%string)]].
Proof.
  split; [|vm_compute; reflexivity].
  apply (missing_clause_number_aborts_the_run unnumbered_model
           (loads_table unnumbered_table) some_text (fun _ _ => long_chunks)
           "contract.pdf" "client" "India" "contract text" 1000 []
           (fifty_one "NIL") [unnumbered_record] unnumbered_record).
  - reflexivity.
  - discriminate.
  - vm_compute. reflexivity.
  - vm_compute. lia.
  - vm_compute. reflexivity.
  - now left.
  - reflexivity.
Defined.

(** In a completed refinement, every selected record that carries no
    error key is in the final file at least twice: once as appended by the
    second pass, once more by the closing write. *)
Theorem selected_records_are_written_twice
    (model : nat -> string -> response) (json_loads : string -> option (list record))
    (extract_text : string -> option string) (chunk_text : string -> Z -> list string)
    (file_path role jurisdiction text : string) (chunk_size : Z)
    (w0 : world) (all_clauses candidates in_order : list record) (c : record) :
  extract_text file_path = Some text ->
  text <> EmptyString ->
  let chunks := chunk_text text chunk_size in
  let pass1 := first_pass model json_loads chunks role jurisdiction []
                 (w0 ++ [EvTruncate]) in
  fst pass1 = Ok all_clauses ->
  50 < List.length (filter no_error all_clauses) ->
  let pass2 := second_pass model json_loads chunks role jurisdiction
                 (Z.of_nat (List.length (filter no_error all_clauses))) []
                 (snd pass1 ++ [EvTruncate]) in
  fst pass2 = Ok candidates ->
  sorted_by_clause_number candidates = Some in_order ->
  In c (firstn 50 in_order) ->
  no_error c = true ->
  exists l1 l2 l3,
    file_of (snd (process_document model json_loads extract_text chunk_text
                    file_path role jurisdiction chunk_size w0))
    = l1 ++ (false, c) :: l2 ++ (false, c) :: l3.
Proof.
  intros Ht Hne chunks pass1 P1 Hgt pass2 P2 S Hc Hn.
  pose proof (process_document_with_text model json_loads extract_text chunk_text
                file_path role jurisdiction text chunk_size Ht Hne w0) as R.
  cbv zeta in R. fold chunks in R. fold pass1 in R.
  destruct pass1 as [res1 w1]. cbn [fst] in P1. subst res1. cbn [snd] in *.
  destruct (Z.ltb_spec 50 (Z.of_nat (List.length (filter no_error all_clauses))));
    [|lia].
  destruct (second_pass_trace model json_loads chunks role jurisdiction
              (Z.of_nat (List.length (filter no_error all_clauses))) []
              (w1 ++ [EvTruncate])) as [evs2 [E2 [Q2 [_ C2]]]].
  fold pass2 in R, E2, C2.
  destruct pass2 as [res2 w2]. cbn [fst] in P2. subst res2. cbn [snd] in *. subst w2.
  rewrite S in R. rewrite R. cbn [snd].
  unfold file_of. rewrite file_from_app, file_from_appends.
  fold (file_of ((w1 ++ [EvTruncate]) ++ evs2)). rewrite file_of_truncated.
  destruct (pass_events_quiet _ _ _ Q2) as [T2 _].
  rewrite (file_from_no_truncation _ _ T2), app_nil_l.
  assert (I1 : In (false, c) (appended evs2)).
  { destruct (C2 candidates eq_refl c) as [[]|I]; [|exact I].
    destruct (sorted_by_clause_number_spec _ _ S) as [Pm _].
    eapply Permutation_in; [exact Pm|]. eapply In_firstn, Hc. }
  assert (I2 : In (false, c)
                 (map (pair false)
                    (written (other_clauses all_clauses (firstn 50 in_order)
                              ++ firstn 50 in_order)))).
  { apply in_map. unfold written. apply filter_In. split; [|exact Hn].
    apply in_or_app. now right. }
  apply in_split in I1. destruct I1 as [a1 [a2 ->]].
  apply in_split in I2. destruct I2 as [b1 [b2 ->]].
  exists a1, (a2 ++ b1), b2. rewrite <- !app_assoc. reflexivity.
Qed.

Lemma selected_records_are_written_twice_witness :
  exists l1 l2 l3,
    file_of (snd advising_run)
    = l1 ++ (false, very_high_clause 1 "Cap the liability")
         :: l2 ++ (false, very_high_clause 1 "Cap the liability") :: l3.
Proof.
  apply (selected_records_are_written_twice advising_model (loads_table long_table)
           some_text (fun _ _ => long_chunks) "contract.pdf" "client" "India"
           "contract text" 1000 [] (fifty_one "NIL")
           (fifty_one "Cap the liability")
           (map (fun n => clause n ("Clause " ++ n) "very high" "Cap the liability")
              (fifty_of_fifty_one ++ ["9"%string]))
           (very_high_clause 1 "Cap the liability")).
  - reflexivity.
  - discriminate.
  - vm_compute. reflexivity.
  - vm_compute. lia.
  - vm_compute. reflexivity.
  - vm_compute. reflexivity.
  - vm_compute. now left.
  - reflexivity.
Defined.
